(** * Verification model of the faucet server's Clearnode client

    Shallow embedding of [server/internal/clearnode/client.go] (the RPC
    client: request correlation, response parsing, connectivity flag) and
    of [validateTokenSupport] / [checkFaucetBalance] of the faucet's
    [main] package.  Go values that flow through [encoding/json] are
    represented by [jvalue]; a Go [map[string]interface{}] is an entry
    list in the map's (arbitrary) iteration order, a Go struct is an entry
    list in field declaration order. *)

From Stdlib Require Import ZArith QArith String Ascii List Bool.
From stdpp Require Import base list gmap strings sorting pretty.
Import ListNotations.
Open Scope string_scope.
Set Warnings "-register-all".

(* ------------------------------------------------------------------ *)
(** ** JSON values as seen by [encoding/json] *)

Inductive jvalue : Type :=
| JNull
| JBool (b : bool)
| JNum (z : Z)                        (** integral JSON number *)
| JStr (s : string)
| JArr (l : list jvalue)              (** [[]interface{}] *)
| JObj (l : list (string * jvalue))   (** [map[string]interface{}] *)
| JStruct (l : list (string * jvalue)). (** Go struct, declaration order *)

(** [m[k]] on a Go map: the entry for [k], [nil] (here [None]) when absent. *)
Fixpoint map_get (m : list (string * jvalue)) (k : string) : option jvalue :=
  match m with
  | [] => None
  | (k', v) :: m' => if String.eqb k k' then Some v else map_get m' k
  end.

(** Type assertions [v.(string)], [v.([]interface{})],
    [v.(map[string]interface{})]. *)
Definition as_string (v : option jvalue) : option string :=
  match v with Some (JStr s) => Some s | _ => None end.
Definition as_list (v : option jvalue) : option (list jvalue) :=
  match v with Some (JArr l) => Some l | _ => None end.
Definition as_map (v : jvalue) : option (list (string * jvalue)) :=
  match v with JObj m => Some m | _ => None end.
Definition as_float (v : option jvalue) : option Z :=
  match v with Some (JNum z) => Some z | _ => None end.

(* ------------------------------------------------------------------ *)
(** ** Records and errors of client.go *)

Record RPCResponse := mkRPCResponse {
  RequestID : Z;
  Method : string;
  Data : list (string * jvalue);
  Timestamp : Z
}.

Record Asset := mkAsset {
  Token : string;
  ChainID : Z;
  Symbol : string;
  Decimals : Z
}.

Record Balance := mkBalance {
  BAsset : string;   (** field [Asset] *)
  BAmount : string   (** field [Amount] *)
}.

Record TransferResult := mkTransferResult {
  TransactionID : string;
  TAmount : string;
  TAsset : string;
  Destination : string;
  Status : string
}.

(** The errors the client returns, one constructor per [fmt.Errorf]
    format; [EWrap ctx e] is [fmt.Errorf("ctx: %w", e)]. *)
Inductive error : Type :=
| ENotConnected                  (** "client is not connected" *)
| ESendFailed                    (** "failed to send message: %w" *)
| ETimeout                       (** "request timeout" *)
| EInvalidAssets                 (** "invalid assets response format" *)
| EInvalidLedger                 (** "invalid ledger balances response format" *)
| EInvalidTransfer               (** "invalid transfer response format" *)
| EInvalidTxData                 (** "invalid transaction data format" *)
| EInvalidChallenge              (** "invalid challenge response format" *)
| EAuthVerify (msg : string)     (** "auth_verify error: %s" *)
| EAuthFailed                    (** "authentication failed. ..." *)
| EAuthVerifyTimeout             (** "auth_verify timeout" *)
| EAuthVerifySend                (** "failed to send auth_verify: %w" *)
| ETokenUnsupported (sym : string) (** "token '%s' is not supported by Clearnode" *)
| EInsufficient (sym : string)   (** "insufficient %s balance: ..." *)
| EKeysNotDistinct               (** "owner and signer private keys must be different ..." *)
| EParseKey                      (** "failed to parse ... private key: %w" *)
| EWrap (ctx : string) (e : error).

Inductive result (A : Type) : Type :=
| Ok (a : A)
| Err (e : error).
Arguments Ok {A} a.
Arguments Err {A} e.

(* ------------------------------------------------------------------ *)
(** ** Parsing helpers (client.go, "Parsing helper methods") *)

Definition asset_of_map (assetData : list (string * jvalue)) : Asset :=
  let token := default "" (as_string (map_get assetData "token")) in
  let symbol := default "" (as_string (map_get assetData "symbol")) in
  let decimals := default 0%Z (as_float (map_get assetData "decimals")) in
  let chainID := default 0%Z (as_float (map_get assetData "chain_id")) in
  mkAsset token chainID symbol decimals.

Fixpoint parse_asset_list (l : list jvalue) : list Asset :=
  match l with
  | [] => []
  | a :: l' =>
      match as_map a with
      | None => parse_asset_list l'
      | Some assetData => asset_of_map assetData :: parse_asset_list l'
      end
  end.

Definition parseAssets (data : list (string * jvalue)) : result (list Asset) :=
  match as_list (map_get data "assets") with
  | None => Err EInvalidAssets
  | Some l => Ok (parse_asset_list l)
  end.

(** The [for ... range balancesInterface] loop of [parseTokenBalance]. *)
Fixpoint find_balance (l : list jvalue) (tokenSymbol : string) : option Balance :=
  match l with
  | [] => None
  | b :: l' =>
      match as_map b with
      | None => find_balance l' tokenSymbol
      | Some balanceData =>
          match as_string (map_get balanceData "asset") with
          | Some asset =>
              if String.eqb asset tokenSymbol then
                match as_string (map_get balanceData "amount") with
                | Some amount => Some (mkBalance asset amount)
                | None => find_balance l' tokenSymbol
                end
              else find_balance l' tokenSymbol
          | None => find_balance l' tokenSymbol
          end
      end
  end.

Definition parseTokenBalance (data : list (string * jvalue)) (tokenSymbol : string)
  : result Balance :=
  match as_list (map_get data "ledger_balances") with
  | None => Err EInvalidLedger
  | Some l =>
      match find_balance l tokenSymbol with
      | Some b => Ok b
      | None => Ok (mkBalance tokenSymbol "0")
      end
  end.

Definition parseTransferResult (data : list (string * jvalue))
  (destination asset amount : string) : result TransferResult :=
  match as_list (map_get data "transactions") with
  | None => Err EInvalidTransfer
  | Some [] => Ok (mkTransferResult "" amount asset destination "completed")
  | Some (tx0 :: _) =>
      match as_map tx0 with
      | None => Err EInvalidTxData
      | Some txData =>
          let txID := default "" (as_string (map_get txData "id")) in
          Ok (mkTransferResult txID amount asset destination "completed")
      end
  end.

(* ------------------------------------------------------------------ *)
(** ** High-level calls over an abstract [sendRequest]

    [send] is the outcome [sendRequest(method, params)] produces on the
    wire (its correlation logic is modelled in module [Correlator]).  Each
    call returns the list of [(method, params)] it handed to [sendRequest]:
    the network I/O it performed. *)

Definition io (A : Type) : Type := list (string * jvalue) * result A.

Definition GetFaucetBalance (isConnected : bool)
  (send : string -> jvalue -> result RPCResponse) (tokenSymbol : string)
  : io Balance :=
  if negb isConnected then ([], Err ENotConnected) else
  let params := JObj [] in
  ([("get_ledger_balances", params)],
   match send "get_ledger_balances" params with
   | Err e => Err (EWrap "get_ledger_balances failed" e)
   | Ok response =>
       match parseTokenBalance (Data response) tokenSymbol with
       | Err e => Err (EWrap ("failed to parse balance for " ++ tokenSymbol) e)
       | Ok b => Ok b
       end
   end).

Definition GetAssets (isConnected : bool)
  (send : string -> jvalue -> result RPCResponse) : io (list Asset) :=
  if negb isConnected then ([], Err ENotConnected) else
  let params := JObj [] in
  ([("get_assets", params)],
   match send "get_assets" params with
   | Err e => Err (EWrap "get_assets failed" e)
   | Ok response =>
       match parseAssets (Data response) with
       | Err e => Err (EWrap "failed to parse assets" e)
       | Ok a => Ok a
       end
   end).

(** [TransferRequest{Destination, Allocations: []Allocation{{asset, amount}}}]
    as [encoding/json] sees it. *)
Definition transfer_params (destination asset amount : string) : jvalue :=
  JStruct [("destination", JStr destination);
           ("allocations", JArr [JStruct [("asset", JStr asset);
                                          ("amount", JStr amount)]])].

Definition Transfer (isConnected : bool)
  (send : string -> jvalue -> result RPCResponse)
  (destination asset amount : string) : io TransferResult :=
  if negb isConnected then ([], Err ENotConnected) else
  let params := transfer_params destination asset amount in
  ([("transfer", params)],
   match send "transfer" params with
   | Err e => Err (EWrap "transfer failed" e)
   | Ok response =>
       match parseTransferResult (Data response) destination asset amount with
       | Err e => Err (EWrap "failed to parse transfer result" e)
       | Ok r => Ok r
       end
   end).

(* ------------------------------------------------------------------ *)
(** ** Request/response correlation ([sendRequest] and [listenForResponses])

    One caller runs [sendRequest] with request id [rid] and response
    channel [ch]; the background reader loop runs concurrently.  Every
    transition below is one atomic section of the Go code: a critical
    section under [responseMu], a channel operation, a socket write, or a
    [select] branch. *)

Module Correlator.

(** [RPCMessage.Res] decoded by [listenForResponses]: at least four
    elements, [float64] id, [string] method, [map] data, [float64]
    timestamp; anything else is skipped ([continue]). *)
Definition u64 (z : Z) : Z := Z.modulo z (2 ^ 64).

Definition decode_response (res : list jvalue) : option RPCResponse :=
  if Nat.leb 4 (length res) then
    match res with
    | JNum id :: JStr method :: JObj data :: JNum ts :: _ =>
        Some (mkRPCResponse (u64 id) method data (u64 ts))
    | _ => None
    end
  else None.

(** Program counter of the [sendRequest] call. *)
Inductive caller_pc : Type :=
| CStart                    (** before [c.pendingRequests[requestID] = responseChan] *)
| CRegistered               (** entry registered, before [WriteJSON] *)
| CWriteFailed              (** [WriteJSON] returned an error *)
| CWaiting                  (** blocked in the [select] *)
| CTimedOut                 (** [time.After] branch taken, before the delete *)
| CDone (r : result RPCResponse). (** returned *)

(** Program counter of the reader loop. *)
Inductive reader_pc : Type :=
| RIdle                     (** about to [ReadJSON] the next frame *)
| RCleanup (id : Z)         (** delivered, before [delete(c.pendingRequests, id)] *)
| RStopped.                 (** loop left after a read error *)

Record state := mkState {
  table : gmap Z nat;                   (** [pendingRequests]: id -> channel *)
  slots : gmap nat (option RPCResponse); (** buffered channels of capacity 1 *)
  caller : caller_pc;
  reader : reader_pc;
  removed : nat   (** deletions that actually removed the entry of [rid] *)
}.

Section Correlation.

Variable rid : Z.   (** [requestID := c.lastReqID.Add(1)] *)
Variable ch : nat.  (** [responseChan := make(chan *RPCResponse, 1)] *)

(** [delete(c.pendingRequests, i)] under [responseMu.Lock()]. *)
Definition delete_entry (i : Z) (s : state) : state :=
  let hit := if decide (i = rid) then
               match table s !! i with Some _ => 1 | None => 0 end
             else 0 in
  mkState (delete i (table s)) (slots s) (caller s) (reader s) (removed s + hit).

(** Lines 425-432: under [RLock], if an entry exists, a non-blocking send
    ([select { case ch <- response: default: }]). *)
Definition deliver (resp : RPCResponse) (s : state) : state :=
  match table s !! RequestID resp with
  | Some c =>
      match slots s !! c with
      | Some None =>
          mkState (table s) (<[c := Some resp]> (slots s)) (caller s) (reader s) (removed s)
      | _ => s
      end
  | None => s
  end.

Definition set_reader (r : reader_pc) (s : state) : state :=
  mkState (table s) (slots s) (caller s) r (removed s).
Definition set_caller (c : caller_pc) (s : state) : state :=
  mkState (table s) (slots s) c (reader s) (removed s).

(** One frame read by the loop while it is at [RIdle]. *)
Definition reader_frame (res : list jvalue) (s : state) : state :=
  match decode_response res with
  | None => s
  | Some resp => set_reader (RCleanup (RequestID resp)) (deliver resp s)
  end.

(** Lines 435-437. *)
Definition reader_cleanup (i : Z) (s : state) : state :=
  set_reader RIdle (delete_entry i s).

(** Lines 337-340: register the wait handle. *)
Definition register (s : state) : state :=
  mkState (<[rid := ch]> (table s)) (<[ch := None]> (slots s)) CRegistered (reader s) (removed s).

Definition send_error : error := EWrap "failed to send message" ESendFailed.

Inductive step : state -> state -> Prop :=
| st_register s :
    caller s = CStart -> step s (register s)
| st_write_ok s :
    caller s = CRegistered -> step s (set_caller CWaiting s)
| st_write_err s :
    caller s = CRegistered -> step s (set_caller CWriteFailed s)
| st_write_cleanup s :
    caller s = CWriteFailed ->
    step s (set_caller (CDone (Err send_error)) (delete_entry rid s))
| st_receive s r :
    caller s = CWaiting -> slots s !! ch = Some (Some r) ->
    step s (mkState (table s) (<[ch := None]> (slots s)) (CDone (Ok r)) (reader s) (removed s))
| st_timer s :
    caller s = CWaiting -> step s (set_caller CTimedOut s)
| st_timeout_cleanup s :
    caller s = CTimedOut ->
    step s (set_caller (CDone (Err ETimeout)) (delete_entry rid s))
| st_read_frame s res :
    reader s = RIdle -> step s (reader_frame res s)
| st_read_cleanup s i :
    reader s = RCleanup i -> step s (reader_cleanup i s)
| st_read_error s :
    reader s = RIdle -> step s (set_reader RStopped s).

Inductive steps : state -> state -> Prop :=
| steps_refl s : steps s s
| steps_cons s1 s2 s3 : step s1 s2 -> steps s2 s3 -> steps s1 s3.

End Correlation.

(** A fresh client: empty table, no channel, the call not yet started. *)
Definition init : state := mkState ∅ ∅ CStart RIdle 0.

End Correlator.

(* ------------------------------------------------------------------ *)
(** ** Error texts ([err.Error()]) *)

Fixpoint error_text (e : error) : string :=
  match e with
  | ENotConnected => "client is not connected"
  | ESendFailed => "write failed"
  | ETimeout => "request timeout"
  | EInvalidAssets => "invalid assets response format"
  | EInvalidLedger => "invalid ledger balances response format"
  | EInvalidTransfer => "invalid transfer response format"
  | EInvalidTxData => "invalid transaction data format"
  | EInvalidChallenge => "invalid challenge response format"
  | EAuthVerify msg => "auth_verify error: " ++ msg
  | EAuthFailed => "authentication failed. Response does not include success"
  | EAuthVerifyTimeout => "auth_verify timeout"
  | EAuthVerifySend => "failed to send auth_verify"
  | ETokenUnsupported sym => "token '" ++ sym ++ "' is not supported by Clearnode"
  | EInsufficient sym => "insufficient " ++ sym ++ " balance"
  | EKeysNotDistinct => "owner and signer private keys must be different for security reasons"
  | EParseKey => "failed to parse private key"
  | EWrap ctx e' => ctx ++ ": " ++ error_text e'
  end.

(** [strings.Contains(hay, needle)]. *)
Fixpoint contains (hay needle : string) : bool :=
  String.prefix needle hay ||
  match hay with
  | EmptyString => false
  | String _ hay' => contains hay' needle
  end.

(* ------------------------------------------------------------------ *)
(** ** [Authenticate] (client.go lines 127-240)

    Step 1 goes through [sendRequest]; step 3 registers its own wait
    handle and ends in one of three ways, [verify_outcome].  The EIP-712
    signature of step 2 cannot fail on these inputs and is not modelled
    here (see module [Identity]).  The result is the stored [jwtToken]. *)

Inductive verify_outcome : Type :=
| VResponse (r : RPCResponse)   (** [case verifyResponse := <-responseChan] *)
| VWriteFailed                  (** [c.conn.WriteJSON(message)] failed *)
| VTimeout.                     (** [case <-time.After(...)] *)

Definition Authenticate (challengeResponse : result RPCResponse)
  (verify : verify_outcome) : result (option string) :=
  match challengeResponse with
  | Err e => Err (EWrap "auth_request failed" e)
  | Ok cr =>
      match as_string (map_get (Data cr) "challenge_message") with
      | None => Err EInvalidChallenge
      | Some _challengeMessage =>
          match verify with
          | VWriteFailed => Err EAuthVerifySend
          | VTimeout => Err EAuthVerifyTimeout
          | VResponse vr =>
              if String.eqb (Method vr) "error" then
                Err (EAuthVerify (default "" (as_string (map_get (Data vr) "error"))))
              else
                match map_get (Data vr) "success" with
                | Some (JBool true) => Ok (as_string (map_get (Data vr) "jwt_token"))
                | _ => Err EAuthFailed
                end
          end
      end
  end.

(* ------------------------------------------------------------------ *)
(** ** Connection lifecycle: [Connect], the reader loop's exit, [Close],
    [Transfer] *)

Module Connection.

Record conn_state := mkConn {
  isConnected : bool;   (** [c.isConnected] *)
  sockOpen : bool;      (** [c.conn] open *)
  readerRunning : bool  (** a [listenForResponses] goroutine is running *)
}.

Inductive op : Type :=
| OpConnect (dialOk : bool)      (** [Connect()]; [dialOk]: [Dial] succeeded *)
| OpReadError                    (** [ReadJSON] fails in the reader loop *)
| OpClose                        (** [Close()] *)
| OpTransfer (destination asset amount : string). (** [Transfer(...)] *)

Definition Connect (dialOk : bool) (s : conn_state) : conn_state :=
  if dialOk then mkConn true true true else s.

(** The loop [break]s and its deferred function runs:
    [c.isConnected.Store(false)]; [c.conn.Close()]. *)
Definition reader_exit (s : conn_state) : conn_state :=
  if readerRunning s then mkConn false false false else s.

Definition Close (s : conn_state) : conn_state :=
  mkConn false false (readerRunning s).

Definition IsConnected (s : conn_state) : bool := isConnected s.

(** Runs the operations in order; [send] is what [sendRequest] yields on
    the wire.  Returns the final state and, for every [Transfer] call, its
    I/O and result. *)
Fixpoint run (send : string -> jvalue -> result RPCResponse)
  (s : conn_state) (ops : list op) : conn_state * list (io TransferResult) :=
  match ops with
  | [] => (s, [])
  | OpConnect ok :: ops' => run send (Connect ok s) ops'
  | OpReadError :: ops' => run send (reader_exit s) ops'
  | OpClose :: ops' => run send (Close s) ops'
  | OpTransfer d a m :: ops' =>
      let r := Transfer (isConnected s) send d a m in
      let '(s', rs) := run send s ops' in (s', r :: rs)
  end.

Definition reconnects (o : op) : bool :=
  match o with OpConnect true => true | _ => false end.

End Connection.

(* ------------------------------------------------------------------ *)
(** ** The operational check of the faucet's [main] package
    ([validateTokenSupport] then [checkFaucetBalance], the variant taking
    [minTransferCount]) *)

Module Operational.

(** [shopspring/decimal.Decimal]: [value * 10^exp]. *)
Record Decimal := mkDecimal { value : Z; exp : Z }.

(** [decimal.NewFromInt]. *)
Definition NewFromInt (n : Z) : Decimal := mkDecimal n 0.

(** [d.Mul(d2)]. *)
Definition Mul (d d2 : Decimal) : Decimal :=
  mkDecimal (value d * value d2) (exp d + exp d2).

(** [d.Cmp(d2)]: both rescaled to the smaller exponent, then compared. *)
Definition rescale (d : Decimal) (e : Z) : Z := value d * 10 ^ (exp d - e).
Definition Cmp (d d2 : Decimal) : comparison :=
  let e := Z.min (exp d) (exp d2) in
  Z.compare (rescale d e) (rescale d2 e).

(** [d.LessThan(d2)]. *)
Definition LessThan (d d2 : Decimal) : bool :=
  match Cmp d d2 with Lt => true | _ => false end.

(** [Balance] of this client generation: the amount is a decimal. *)
Record DBalance := mkDBalance { DAsset : string; DAmount : Decimal }.

Definition validateTokenSupport (assets : result (list Asset)) (tokenSymbol : string)
  : result unit :=
  match assets with
  | Err e => Err (EWrap "failed to fetch supported assets" e)
  | Ok l =>
      if existsb (fun a => String.eqb (Symbol a) tokenSymbol) l then Ok tt
      else Err (ETokenUnsupported tokenSymbol)
  end.

Definition checkFaucetBalance (balance : result DBalance) (tokenSymbol : string)
  (standardTipAmount : Decimal) (minTransferCount : Z) : result unit :=
  match balance with
  | Err e => Err (EWrap "failed to fetch faucet balance" e)
  | Ok b =>
      let minRequiredBalance := Mul standardTipAmount (NewFromInt minTransferCount) in
      if LessThan (DAmount b) minRequiredBalance then Err (EInsufficient tokenSymbol)
      else Ok tt
  end.

(** The check as [main] runs it: asset support first, then the balance. *)
Definition EnsureOperational (assets : result (list Asset)) (balance : result DBalance)
  (tokenSymbol : string) (standardTipAmount : Decimal) (minTransferCount : Z)
  : result unit :=
  match validateTokenSupport assets tokenSymbol with
  | Err e => Err e
  | Ok _ => checkFaucetBalance balance tokenSymbol standardTipAmount minTransferCount
  end.

(** Exact rational value of a decimal. *)
Definition to_Q (d : Decimal) : Q :=
  Qmake (value d * 10 ^ Z.max (exp d) 0) (Z.to_pos (10 ^ Z.max (- exp d) 0)).

End Operational.

(* ------------------------------------------------------------------ *)
(** ** Two identities: authentication (owner) and transaction signing *)

Module Identity.

(** Order of the secp256k1 group. *)
Definition secp256k1N : Z :=
  115792089237316195423570985008687907852837564279074904382605163141518161494337.

Definition hex_digit (c : ascii) : option Z :=
  let n := Z.of_nat (nat_of_ascii c) in
  if (48 <=? n)%Z && (n <=? 57)%Z then Some (n - 48)%Z
  else if (97 <=? n)%Z && (n <=? 102)%Z then Some (n - 87)%Z
  else if (65 <=? n)%Z && (n <=? 70)%Z then Some (n - 55)%Z
  else None.

(** [hex.DecodeString] followed by big-endian [big.Int.SetBytes]. *)
Fixpoint hex_value (s : string) (acc : Z) : option Z :=
  match s with
  | EmptyString => Some acc
  | String c s' =>
      match hex_digit c with
      | Some d => hex_value s' (acc * 16 + d)%Z
      | None => None
      end
  end.

(** [crypto.HexToECDSA]: 32 bytes of hex, [0 < D < N]; the private scalar. *)
Definition HexToECDSA (s : string) : option Z :=
  if Nat.eqb (String.length s) 64 then
    match hex_value s 0 with
    | Some d => if (0 <? d)%Z && (d <? secp256k1N)%Z then Some d else None
    | None => None
    end
  else None.

(** [if len(k) > 2 && k[:2] == "0x" { k = k[2:] }] *)
Definition strip0x (s : string) : string :=
  match s with
  | String "0" (String "x" rest) => if Nat.ltb 2 (String.length s) then rest else s
  | _ => s
  end.

(** The key material of [Client]: [privateKey] (used by [signMessage])
    and the key [eip712Signer] was built from (used by [Authenticate]). *)
Record Client := mkClient {
  eip712SignerKey : Z;
  privateKey : Z;
  url : string
}.

(** [NewClient(privateKeyHex, clearnodeURL)] of client.go: one key, from
    which both [privateKey] and [eip712Signer] are set. *)
Definition NewClient (privateKeyHex clearnodeURL : string) : result Client :=
  match HexToECDSA (strip0x privateKeyHex) with
  | None => Err (EWrap "failed to parse private key" EParseKey)
  | Some k => Ok (mkClient k k clearnodeURL)
  end.

(** Modelled from the spec: the two-identity constructor
    [NewClient(ownerPrivateKey, signerPrivateKey, clearnodeURL)] that
    client_validation_test.go calls; its source is not under src/.  Each
    key is cleaned and parsed as in the single-key [NewClient]; the
    authentication (owner) key backs [eip712Signer], the transaction-signing
    key is [privateKey], and identical keys are refused ("enforced distinct
    at construction"). *)
Definition NewClientTwoKeys (ownerHex signerHex clearnodeURL : string) : result Client :=
  match HexToECDSA (strip0x ownerHex) with
  | None => Err (EWrap "failed to parse owner private key" EParseKey)
  | Some ok =>
      match HexToECDSA (strip0x signerHex) with
      | None => Err (EWrap "failed to parse signer private key" EParseKey)
      | Some sk =>
          if Z.eqb ok sk then Err EKeysNotDistinct
          else Ok (mkClient ok sk clearnodeURL)
      end
  end.

Definition valid_key (k : Z) : Prop := (0 < k < secp256k1N)%Z.

(** [c.eip712Signer.SignChallenge]: [crypto.Sign] of the typed-data hash
    with the signer's key, then [V += 27] ([normalizeV]). *)
Definition structured_signature {H S : Type} (sign : Z -> H -> S) (normalizeV : S -> S)
  (c : Client) (typedDataHash : H) : S :=
  normalizeV (sign (eip712SignerKey c) typedDataHash).

(** [signMessage]: [crypto.Sign(hash, c.privateKey)]. *)
Definition request_signature {H S : Type} (sign : Z -> H -> S)
  (c : Client) (hash : H) : S :=
  sign (privateKey c) hash.

(** The node accepts a signature for an expected address when the
    address recovered from it is that address. *)
Definition node_accepts {H S A : Type} (recover : H -> S -> option A)
  (expected : A) (h : H) (sg : S) : Prop :=
  recover h sg = Some expected.

End Identity.

(* ------------------------------------------------------------------ *)
(** ** [encoding/json.Marshal] of the signed request tuple *)

Module Marshal.

Definition dquote : string := String (ascii_of_nat 34) EmptyString.
Definition bslash : string := String (ascii_of_nat 92) EmptyString.

Definition hexdigit (n : nat) : string :=
  String (match String.get n "0123456789abcdef" with Some c => c | None => "0"%char end)
    EmptyString.

(** One byte of [encodeState.string] with HTML escaping on (as
    [json.Marshal] does): the short escapes, [\u00XX] for other control
    bytes and for [<], [>], [&]; every other byte is copied.  Bytes of
    valid UTF-8 past ASCII are copied as well (U+2028/U+2029 and invalid
    sequences, which Go rewrites, are outside this model). *)
Definition encode_char (c : ascii) : string :=
  let n := nat_of_ascii c in
  if Nat.eqb n 34 then bslash ++ dquote
  else if Nat.eqb n 92 then bslash ++ bslash
  else if Nat.eqb n 10 then bslash ++ "n"
  else if Nat.eqb n 13 then bslash ++ "r"
  else if Nat.eqb n 9 then bslash ++ "t"
  else if Nat.eqb n 8 then bslash ++ "b"
  else if Nat.eqb n 12 then bslash ++ "f"
  else if Nat.ltb n 32 || Nat.eqb n 60 || Nat.eqb n 62 || Nat.eqb n 38 then
    bslash ++ "u00" ++ hexdigit (n / 16) ++ hexdigit (n mod 16)
  else String c EmptyString.

Fixpoint encode_body (s : string) : string :=
  match s with
  | EmptyString => EmptyString
  | String c s' => encode_char c ++ encode_body s'
  end.

Definition encode_string (s : string) : string := dquote ++ encode_body s ++ dquote.

Definition encode_entry (e : string * string) : string :=
  encode_string (fst e) ++ ":" ++ snd e.

(** [mapEncoder] sorts the entries by key ([slices.SortFunc] on
    [strings.Compare] of the key strings). *)
Definition key_le (a b : string * string) : Prop := String.leb (fst a) (fst b) = true.
#[global] Instance key_le_dec : RelDecision key_le :=
  fun a b => decide (String.leb (fst a) (fst b) = true).

Fixpoint marshal (v : jvalue) : string :=
  match v with
  | JNull => "null"
  | JBool true => "true"
  | JBool false => "false"
  | JNum z => pretty z
  | JStr s => encode_string s
  | JArr l => "[" ++ String.concat "," (List.map marshal l) ++ "]"
  | JObj m =>
      "{" ++ String.concat ","
        (List.map encode_entry
           (merge_sort key_le (List.map (fun '(k, x) => (k, marshal x)) m))) ++ "}"
  | JStruct m =>
      "{" ++ String.concat ","
        (List.map encode_entry (List.map (fun '(k, x) => (k, marshal x)) m)) ++ "}"
  end.

(** [req := []interface{}{requestID, method, params, timestamp}] *)
Definition request_tuple (requestID : Z) (method : string) (params : jvalue) (timestamp : Z)
  : jvalue := JArr [JNum requestID; JStr method; params; JNum timestamp].

(** The bytes [signMessage] hashes: [json.Marshal(req)]. *)
Definition signer_input (requestID : Z) (method : string) (params : jvalue) (timestamp : Z)
  : string := marshal (request_tuple requestID method params timestamp).

(** [signMessage]: [crypto.Sign(Keccak256(json.Marshal(data)), privateKey)]. *)
Definition signMessage {H S : Type} (keccak : string -> H) (sign : Z -> H -> S)
  (privateKey : Z) (requestID : Z) (method : string) (params : jvalue) (timestamp : Z) : S :=
  sign privateKey (keccak (signer_input requestID method params timestamp)).

(** Two Go values denote the same logical request value: a map is a set of
    entries with distinct keys (its iteration order is not fixed), and
    the relation is closed under replacing a component. *)
Inductive same_value : jvalue -> jvalue -> Prop :=
| sv_refl v : same_value v v
| sv_trans u v w : same_value u v -> same_value v w -> same_value u w
| sv_map_perm m1 m2 :
    NoDup (List.map fst m1) -> Permutation m1 m2 -> same_value (JObj m1) (JObj m2)
| sv_map_entry l1 l2 k x y :
    same_value x y -> same_value (JObj (l1 ++ (k, x) :: l2)) (JObj (l1 ++ (k, y) :: l2))
| sv_struct_field l1 l2 k x y :
    same_value x y -> same_value (JStruct (l1 ++ (k, x) :: l2)) (JStruct (l1 ++ (k, y) :: l2))
| sv_elem l1 l2 x y :
    same_value x y -> same_value (JArr (l1 ++ x :: l2)) (JArr (l1 ++ y :: l2)).

End Marshal.

(* ------------------------------------------------------------------ *)
(** ** Addresses as [requestTokens] handles them ([strings.TrimSpace],
    [common.IsHexAddress], [common.HexToAddress], [Address.Hex]) *)

Module Addr.

(** Byte length of the [unicode.IsSpace] rune UTF-8-encoded at the start
    of [s] (0 when there is none): the six ASCII spaces, U+0085, U+00A0,
    U+1680, U+2000-U+200A, U+2028, U+2029, U+202F, U+205F, U+3000. *)
Definition space_prefix (s : string) : nat :=
  match s with
  | EmptyString => 0
  | String a s1 =>
      let x := nat_of_ascii a in
      if (Nat.eqb x 9) || (Nat.eqb x 10) || (Nat.eqb x 11) || (Nat.eqb x 12) || (Nat.eqb x 13) || (Nat.eqb x 32) then 1
      else match s1 with
      | EmptyString => 0
      | String b s2 =>
          let y := nat_of_ascii b in
          if (Nat.eqb x 194) && ((Nat.eqb y 133) || (Nat.eqb y 160)) then 2
          else match s2 with
          | EmptyString => 0
          | String c _ =>
              let z := nat_of_ascii c in
              if ((Nat.eqb x 225) && (Nat.eqb y 154) && (Nat.eqb z 128)) ||
                 ((Nat.eqb x 226) && (Nat.eqb y 128) &&
                    (((Nat.leb 128 z) && (Nat.leb z 138)) || (Nat.eqb z 168) || (Nat.eqb z 169) || (Nat.eqb z 175))) ||
                 ((Nat.eqb x 226) && (Nat.eqb y 129) && (Nat.eqb z 159)) ||
                 ((Nat.eqb x 227) && (Nat.eqb y 128) && (Nat.eqb z 128))
              then 3 else 0
          end
      end
  end.

(** Byte length of the space rune that [utf8.DecodeLastRuneInString]
    finds at the end of [s] (0 when none). *)
Definition space_suffix (s : string) : nat :=
  let n := String.length s in
  if (Nat.leb 1 n) && (Nat.eqb (space_prefix (substring (n - 1) 1 s)) 1) then 1
  else if (Nat.leb 2 n) && (Nat.eqb (space_prefix (substring (n - 2) 2 s)) 2) then 2
  else if (Nat.leb 3 n) && (Nat.eqb (space_prefix (substring (n - 3) 3 s)) 3) then 3
  else 0.

Fixpoint trim_left (fuel : nat) (s : string) : string :=
  match fuel with
  | O => s
  | S f =>
      let k := space_prefix s in
      if Nat.eqb k 0 then s else trim_left f (substring k (String.length s - k) s)
  end.

Fixpoint trim_right (fuel : nat) (s : string) : string :=
  match fuel with
  | O => s
  | S f =>
      let k := space_suffix s in
      if Nat.eqb k 0 then s else trim_right f (substring 0 (String.length s - k) s)
  end.

(** [strings.TrimSpace]: [TrimRightFunc(TrimLeftFunc(s, unicode.IsSpace), unicode.IsSpace)];
    every round removes at least one byte, so [length s] rounds suffice. *)
Definition TrimSpace (s : string) : string :=
  trim_right (String.length s) (trim_left (String.length s) s).

(** [isHexCharacter]. *)
Definition isHexCharacter (c : ascii) : bool :=
  let n := nat_of_ascii c in
  ((Nat.leb 48 n) && (Nat.leb n 57)) || ((Nat.leb 97 n) && (Nat.leb n 102)) || ((Nat.leb 65 n) && (Nat.leb n 70)).

Definition isHex (s : string) : bool :=
  Nat.even (String.length s) && forallb isHexCharacter (list_ascii_of_string s).

(** [has0xPrefix]: [len(str) >= 2 && str[0] == '0' && (str[1] == 'x' || str[1] == 'X')]. *)
Definition has0xPrefix (s : string) : bool :=
  match s with
  | String a (String b _) => Ascii.eqb a "0" && (Ascii.eqb b "x" || Ascii.eqb b "X")
  | _ => false
  end.

(** [s[2:]]. *)
Definition drop2 (s : string) : string := substring 2 (String.length s - 2) s.

(** [common.IsHexAddress]: [AddressLength = 20]. *)
Definition IsHexAddress (s : string) : bool :=
  let s' := if has0xPrefix s then drop2 s else s in
  Nat.eqb (String.length s') 40 && isHex s'.

(** [hex.DecodeString] with its error dropped ([common.Hex2Bytes]): the
    bytes decoded before the first invalid pair. *)
Fixpoint decode_pairs (s : string) : list Z :=
  match s with
  | String a (String b rest) =>
      match Identity.hex_digit a, Identity.hex_digit b with
      | Some x, Some y => (x * 16 + y)%Z :: decode_pairs rest
      | _, _ => []
      end
  | _ => []
  end.

(** [common.FromHex]. *)
Definition FromHex (s : string) : list Z :=
  let s1 := if has0xPrefix s then drop2 s else s in
  let s2 := if Nat.odd (String.length s1) then "0" ++ s1 else s1 in
  decode_pairs s2.

(** [common.Address] is [[20]byte]. *)
Definition Address : Type := list Z.

(** [BytesToAddress]/[SetBytes]: the last 20 bytes, right-aligned. *)
Definition BytesToAddress (b : list Z) : Address :=
  let b' := if Nat.ltb 20 (length b) then List.skipn (length b - 20) b else b in
  List.app (List.repeat 0%Z (20 - length b')) b'.

Definition HexToAddress (s : string) : Address := BytesToAddress (FromHex s).

Definition hexchar (n : Z) : ascii :=
  match String.get (Z.to_nat n) "0123456789abcdef" with Some c => c | None => "0"%char end.

(** [hex.Encode]: [hextable[v>>4]], [hextable[v&0x0f]] per byte. *)
Fixpoint hex_encode (bs : list Z) : string :=
  match bs with
  | [] => EmptyString
  | v :: bs' => String (hexchar (Z.shiftr v 4)) (String (hexchar (Z.land v 15)) (hex_encode bs'))
  end.

(** Nibble [i] of the big-endian 32-byte Keccak-256 digest [h]
    ([hash[i/2] >> 4] for even [i], [hash[i/2] & 0xf] for odd). *)
Definition hash_nibble (h : Z) (i : nat) : Z :=
  let hashByte := Z.land (Z.shiftr h (8 * (31 - Z.of_nat (i / 2)))) 255 in
  if Nat.even i then Z.shiftr hashByte 4 else Z.land hashByte 15.

(** The loop of [checksumHex] over [buf[2:]]:
    [if buf[i] > '9' && hashByte > 7 { buf[i] -= 32 }]. *)
Fixpoint checksum_from (h : Z) (i : nat) (s : string) : string :=
  match s with
  | EmptyString => EmptyString
  | String c s' =>
      let c' := if Nat.ltb 57 (nat_of_ascii c) && Z.ltb 7 (hash_nibble h i)
                then ascii_of_nat (nat_of_ascii c - 32) else c in
      String c' (checksum_from h (S i) s')
  end.

(** [decode_pairs] over the digit values of the characters. *)
Fixpoint decode_digits (l : list (option Z)) : list Z :=
  match l with
  | Some x :: Some y :: rest => (x * 16 + y)%Z :: decode_digits rest
  | _ => []
  end.

Section Checksum.
(** [sha3.NewLegacyKeccak256] over the bytes of a string, as a 256-bit
    big-endian number. *)
Variable keccak256 : string -> Z.

(** [Address.Hex] (EIP-55 checksummed). *)
Definition Hex (a : Address) : string :=
  "0x" ++ checksum_from (keccak256 (hex_encode a)) 0 (hex_encode a).
End Checksum.

End Addr.

(* ------------------------------------------------------------------ *)
(** ** The HTTP handler [requestTokens] and the CORS middleware (server.go) *)

Module Server.
Import Operational.

Definition ErrInvalidRequestFormat : string :=
  "Invalid request format. Expected JSON with 'userAddress' field.".
Definition ErrInvalidAddressFormat : string := "Invalid address format.".
Definition ErrClearnodeConnectionFailed : string := "Failed to connect to Clearnode.".
Definition ErrServiceUnavailable : string := "Faucet service is currently unavailable.".
Definition ErrTransferFailed : string := "Failed to send tokens.".
Definition MsgTokensSentSuccessfully : string := "Tokens sent successfully".

(** The configuration fields the handler reads. *)
Record Config := mkConfig {
  TokenSymbol : string;
  StandardTipAmountDecimal : Decimal
}.

(** One entry of [result.Transactions]. *)
Record Tx := mkTx { Id : Z; TxAmount : Decimal; TxAsset : string }.
Record TransferResponse := mkTransferResponse { Transactions : list Tx }.

(** What the three client calls return; [transfer] as a function of its
    arguments. *)
Record Clearnode := mkClearnode {
  ensureConnected : result unit;
  ensureOperational : result unit;
  transfer : string -> string -> Decimal -> result TransferResponse
}.

Inductive call : Type :=
| CallEnsureConnected
| CallEnsureOperational
| CallTransfer (destination tokenSymbol : string) (amount : Decimal).

Record FaucetResponse := mkFaucetResponse {
  Success : bool; Message : string; TxID : string;
  FAmount : string; FAsset : string; FDestination : string
}.

Inductive body : Type :=
| BError (msg : string)            (** [ErrorResponse{Error: msg}] *)
| BFaucet (r : FaucetResponse).

Section Handler.
Variable keccak256 : string -> Z.
(** [decimal.Decimal.String]. *)
Variable DecString : Decimal -> string.

(** [requestTokens]. [bound] is [req.UserAddress] as [ShouldBindJSON]
    decoded it ([None] when decoding failed); the [binding:"required"]
    check refuses the empty string.  Returns the client calls made, in
    order, and the status and body written. *)
Definition requestTokens (cfg : Config) (cl : Clearnode) (bound : option string)
  : list call * (Z * body) :=
  match bound with
  | None => ([], (400%Z, BError ErrInvalidRequestFormat))
  | Some raw =>
    if String.eqb raw "" then ([], (400%Z, BError ErrInvalidRequestFormat)) else
    let userAddress0 := Addr.TrimSpace raw in
    if negb (Addr.IsHexAddress userAddress0) then
      ([], (400%Z, BError ErrInvalidAddressFormat))
    else
    let userAddress := Addr.Hex keccak256 (Addr.HexToAddress userAddress0) in
    match ensureConnected cl with
    | Err _ => ([CallEnsureConnected], (503%Z, BError ErrClearnodeConnectionFailed))
    | Ok _ =>
      match ensureOperational cl with
      | Err _ => ([CallEnsureConnected; CallEnsureOperational],
                  (503%Z, BError ErrServiceUnavailable))
      | Ok _ =>
        let calls := [CallEnsureConnected; CallEnsureOperational;
                      CallTransfer userAddress (TokenSymbol cfg) (StandardTipAmountDecimal cfg)] in
        match transfer cl userAddress (TokenSymbol cfg) (StandardTipAmountDecimal cfg) with
        | Err _ => (calls, (500%Z, BError ErrTransferFailed))
        | Ok result =>
          let '(txID, amount, asset) :=
            match Transactions result with
            | tx :: _ => (pretty (Id tx), DecString (TxAmount tx), TxAsset tx)
            | [] => ("", DecString (StandardTipAmountDecimal cfg), TokenSymbol cfg)
            end in
          (calls, (200%Z, BFaucet (mkFaucetResponse true MsgTokensSentSuccessfully
                                     txID amount asset userAddress)))
        end
      end
    end
  end.
End Handler.

(** The client calls of a request that reached [Transfer], destination [d]. *)
Definition handler_calls (cfg : Config) (d : string) : list call :=
  [CallEnsureConnected; CallEnsureOperational;
   CallTransfer d (TokenSymbol cfg) (StandardTipAmountDecimal cfg)].

(** [corsMiddleware]: the three headers, then [AbortWithStatus(204)] for
    [OPTIONS] or [c.Next()]. *)
Definition cors_headers : list (string * string) :=
  [("Access-Control-Allow-Origin", "*");
   ("Access-Control-Allow-Methods", "GET, POST, PUT, DELETE, OPTIONS");
   ("Access-Control-Allow-Headers",
    "Origin, Content-Type, Content-Length, Accept-Encoding, X-CSRF-Token, Authorization")].

Definition corsMiddleware {A : Type} (method : string) (next : A) : list (string * string) * (Z + A) :=
  (cors_headers, if String.eqb method "OPTIONS" then inl 204%Z else inr next).

(** The handlers [setupRoutes] registers; [HNoRoute] is gin's 404 chain. *)
Inductive handler : Type := HRequestTokens | HGetInfo | HNoRoute.

Definition route (method path : string) : handler :=
  if String.eqb method "POST" && String.eqb path "/requestTokens" then HRequestTokens
  else if String.eqb method "GET" && String.eqb path "/info" then HGetInfo
  else HNoRoute.

(** gin's [RedirectTrailingSlash] (on by default in [gin.New()]): when the
    method has routes but none matches the path, and the path without its
    trailing slash is one of them, [handleHTTPRequest] answers with a
    redirect to that path (301 for [GET], 307 otherwise) and returns before
    any middleware runs.  (No [X-Forwarded-Prefix] header is assumed.) *)
Definition redirect_target (method path : string) : option string :=
  if String.eqb method "POST" && String.eqb path "/requestTokens/" then Some "/requestTokens"
  else if String.eqb method "GET" && String.eqb path "/info/" then Some "/info"
  else None.

(** A request as gin's engine handles it: the trailing-slash redirect, or
    the middleware chain of [NewServer] ([gin.Recovery], [requestLogger],
    [corsMiddleware]) in front of the matched handler or of the 404 chain;
    the first two only log or recover, and pass the request on. *)
Definition serve (method path : string) : list (string * string) * (Z + handler) :=
  match redirect_target method path with
  | Some loc => ([("Location", loc)], inl (if String.eqb method "GET" then 301%Z else 307%Z))
  | None => corsMiddleware method (route method path)
  end.

End Server.

(* ------------------------------------------------------------------ *)
(** ** [EIP712Signer.SignChallenge]: the recovery byte *)

Module Eip712.

(** [if signature[64] < 27 { signature[64] += 27 }] on the 65-byte
    [crypto.Sign] output ([byte] arithmetic, modulo 256); indexing past
    the end panics ([None]). *)
Definition normalizeV (signature : list Z) : option (list Z) :=
  match signature !! 64 with
  | None => None
  | Some v => Some (if Z.ltb v 27 then <[64 := ((v + 27) mod 256)%Z]> signature else signature)
  end.

End Eip712.

(* ================================================================== *)
(** * Theorems *)

Section CorrelatorProofs.
Import Correlator.

Variable rid : Z.
Variable ch : nat.

(** Invariant of every state reachable from [init]. *)
Definition corr_inv (s : state) : Prop :=
  (forall i c, table s !! i = Some c -> i = rid /\ c = ch) /\
  (caller s = CStart -> table s !! rid = None /\ removed s = 0 /\ slots s !! ch = None) /\
  (caller s <> CStart -> (exists b, slots s !! ch = Some b) /\
     removed s = match table s !! rid with Some _ => 0 | None => 1 end) /\
  (forall r, slots s !! ch = Some (Some r) -> table s !! rid = None \/ reader s = RCleanup rid) /\
  (forall r, caller s = CDone (Ok r) -> table s !! rid = None \/ reader s = RCleanup rid) /\
  (forall e, caller s = CDone (Err e) -> table s !! rid = None /\ (e = send_error \/ e = ETimeout)).

Lemma corr_inv_init : corr_inv init.
Proof.
  unfold corr_inv, init; simpl.
  repeat split; intros; simplify_map_eq; try congruence.
Qed.

Lemma delete_entry_rid (s : state) :
  table (delete_entry rid rid s) !! rid = None /\
  removed (delete_entry rid rid s) =
    removed s + match table s !! rid with Some _ => 1 | None => 0 end.
Proof.
  unfold delete_entry; simpl. rewrite decide_True by reflexivity.
  split; [apply lookup_delete_eq | reflexivity].
Qed.

Lemma corr_inv_step (s0 s1 : state) :
  corr_inv s0 -> step rid ch s0 s1 -> corr_inv s1.
Proof.
  intros (Htab & Hstart & Hreg & Hslot & Hok & Herr) Hst.
  destruct Hst as [s Hc|s Hc|s Hc|s Hc|s r Hc Hr|s Hc|s Hc|s res Hrd|s j Hrd|s Hrd];
    unfold corr_inv.
  - (* register *)
    destruct (Hstart Hc) as (HT & HR & HS).
    unfold register; simpl; split_and!.
    + intros i c Hi. destruct (decide (i = rid)) as [->|Hne].
      * rewrite lookup_insert_eq in Hi. by inversion Hi.
      * rewrite lookup_insert_ne in Hi by congruence. by apply Htab in Hi.
    + discriminate.
    + intros _. split; [exists None; apply lookup_insert_eq|].
      rewrite lookup_insert_eq. exact HR.
    + intros r. rewrite lookup_insert_eq. discriminate.
    + discriminate.
    + discriminate.
  - (* write ok *)
    simpl; split_and!; try exact Htab; try exact Hslot; try discriminate.
    intros _. apply Hreg; congruence.
  - (* write error *)
    simpl; split_and!; try exact Htab; try exact Hslot; try discriminate.
    intros _. apply Hreg; congruence.
  - (* write failure cleanup *)
    destruct (Hreg ltac:(congruence)) as [Hb Hrm].
    destruct (delete_entry_rid s) as [HT' HR'].
    unfold set_caller; cbn [table slots caller reader removed]; split_and!.
    + intros i c Hi. unfold delete_entry in Hi; simpl in Hi.
      destruct (decide (i = rid)) as [->|Hne].
      * by rewrite lookup_delete_eq in Hi.
      * rewrite lookup_delete_ne in Hi by congruence. by apply Htab.
    + discriminate.
    + intros _. split; [exact Hb|].
      rewrite HT', HR', Hrm. destruct (table s !! rid); reflexivity.
    + intros r Hr. left. exact HT'.
    + intros r Hr. left. exact HT'.
    + intros e He. inversion He; subst. split; [exact HT'|left; reflexivity].
  - (* receive *)
    destruct (Hreg ltac:(congruence)) as [Hb Hrm].
    simpl; split_and!.
    + exact Htab.
    + discriminate.
    + intros _. split; [exists None; apply lookup_insert_eq|exact Hrm].
    + intros r' Hr'. rewrite lookup_insert_eq in Hr'. discriminate.
    + intros r' Hr'. exact (Hslot r Hr).
    + intros e He. discriminate.
  - (* timer *)
    simpl; split_and!; try exact Htab; try exact Hslot; try discriminate.
    intros _. apply Hreg; congruence.
  - (* timeout cleanup *)
    destruct (Hreg ltac:(congruence)) as [Hb Hrm].
    destruct (delete_entry_rid s) as [HT' HR'].
    unfold set_caller; cbn [table slots caller reader removed]; split_and!.
    + intros i c Hi. unfold delete_entry in Hi; simpl in Hi.
      destruct (decide (i = rid)) as [->|Hne].
      * by rewrite lookup_delete_eq in Hi.
      * rewrite lookup_delete_ne in Hi by congruence. by apply Htab.
    + discriminate.
    + intros _. split; [exact Hb|].
      rewrite HT', HR', Hrm. destruct (table s !! rid); reflexivity.
    + intros r Hr. left. exact HT'.
    + intros r Hr. left. exact HT'.
    + intros e He. inversion He; subst. split; [exact HT'|right; reflexivity].
  - (* reader: one frame *)
    unfold reader_frame. destruct (decode_response res) as [resp|];
      [|split_and!; assumption].
    unfold deliver.
    destruct (table s !! RequestID resp) as [c|] eqn:Hlk.
    + destruct (Htab _ _ Hlk) as [Hid Hc]. subst c.
      destruct (slots s !! ch) as [[r0|]|] eqn:Hsl.
      * unfold set_reader; simpl; split_and!; try assumption.
        -- intros Hcs. destruct (Hstart Hcs) as (HT & _ & _). congruence.
        -- intros Hcs. split; [exists (Some r0); exact Hsl|]. apply Hreg; exact Hcs.
        -- intros r Hr. right. rewrite Hid. reflexivity.
        -- intros r Hr. right. rewrite Hid. reflexivity.
      * unfold set_reader; simpl; split_and!; try assumption.
        -- intros Hcs. destruct (Hstart Hcs) as (HT & _ & _). congruence.
        -- intros Hcs. split; [exists (Some resp); apply lookup_insert_eq|].
           apply Hreg; exact Hcs.
        -- intros r Hr. right. rewrite Hid. reflexivity.
        -- intros r Hr. right. rewrite Hid. reflexivity.
      * unfold set_reader; simpl; split_and!; try assumption.
        -- intros Hcs. destruct (Hstart Hcs) as (HT & _ & _). congruence.
        -- intros Hcs. destruct (Hreg Hcs) as [[b Hb] _]. congruence.
        -- intros r Hr. congruence.
        -- intros r Hr. right. rewrite Hid. reflexivity.
    + unfold set_reader; simpl; split_and!; try assumption.
      * intros r Hr. left. destruct (Hslot r Hr) as [H|H]; [exact H|congruence].
      * intros r Hr. left. destruct (Hok r Hr) as [H|H]; [exact H|congruence].
  - (* reader: cleanup *)
    unfold reader_cleanup, set_reader, delete_entry; simpl; split_and!.
    + intros i c Hi. destruct (decide (i = j)) as [->|Hne].
      * by rewrite lookup_delete_eq in Hi.
      * rewrite lookup_delete_ne in Hi by congruence. by apply Htab.
    + intros Hcs. destruct (Hstart Hcs) as (HT & HR & HS). split_and!.
      * destruct (decide (j = rid)) as [->|Hne].
        -- apply lookup_delete_eq.
        -- rewrite lookup_delete_ne by congruence. exact HT.
      * destruct (decide (j = rid)) as [->|Hne]; [rewrite HT|]; lia.
      * exact HS.
    + intros Hcs. destruct (Hreg Hcs) as [Hb Hrm]. split; [exact Hb|].
      destruct (decide (j = rid)) as [->|Hne].
      * rewrite lookup_delete_eq, Hrm. destruct (table s !! rid); reflexivity.
      * rewrite lookup_delete_ne by congruence. rewrite Nat.add_0_r. exact Hrm.
    + intros r Hr. left. destruct (decide (j = rid)) as [->|Hne].
      * apply lookup_delete_eq.
      * rewrite lookup_delete_ne by congruence.
        destruct (Hslot r Hr) as [H|H]; [exact H|congruence].
    + intros r Hr. left. destruct (decide (j = rid)) as [->|Hne].
      * apply lookup_delete_eq.
      * rewrite lookup_delete_ne by congruence.
        destruct (Hok r Hr) as [H|H]; [exact H|congruence].
    + intros e He. destruct (Herr e He) as [HT He']. split; [|exact He'].
      destruct (decide (j = rid)) as [->|Hne].
      * apply lookup_delete_eq.
      * rewrite lookup_delete_ne by congruence. exact HT.
  - (* reader: read error *)
    unfold set_reader; simpl; split_and!; try assumption.
    + intros r Hr. left. destruct (Hslot r Hr) as [H|H]; [exact H|congruence].
    + intros r Hr. left. destruct (Hok r Hr) as [H|H]; [exact H|congruence].
Qed.

Lemma corr_inv_steps (s s' : state) :
  steps rid ch s s' -> corr_inv s -> corr_inv s'.
Proof.
  induction 1 as [s|s1 s2 s3 H12 H23 IH]; intros Hi; [exact Hi|].
  apply IH. exact (corr_inv_step s1 s2 Hi H12).
Qed.

End CorrelatorProofs.

Section CorrelatorTheorems.
Import Correlator.

Lemma steps_trans (rid : Z) (ch : nat) (s1 s2 s3 : state) :
  steps rid ch s1 s2 -> steps rid ch s2 s3 -> steps rid ch s1 s3.
Proof.
  induction 1 as [s|a b c Hab Hbc IH]; intros H; [exact H|].
  exact (steps_cons rid ch a b s3 Hab (IH H)).
Qed.

Lemma removed_at_most_once (rid : Z) (ch : nat) (s : state) :
  steps rid ch init s -> removed s <= 1.
Proof.
  intros Hs.
  destruct (corr_inv_steps rid ch init s Hs (corr_inv_init rid ch))
    as (_ & Hstart & Hreg & _).
  destruct (caller s) eqn:Hc;
    try (destruct (Hreg ltac:(congruence)) as [_ ->]; destruct (table s !! rid); lia).
  destruct (Hstart eq_refl) as (_ & -> & _). lia.
Qed.

(** The response frame used in the concrete runs below. *)
Definition frame1 : list jvalue := [JNum 1; JStr "transfer"; JObj []; JNum 5].
Definition resp1 : RPCResponse := mkRPCResponse 1 "transfer" [] 5.

(** A run of [sendRequest] for id 1: register, write, the reader
    delivers [frame1], the caller receives it and returns. *)
Lemma response_run :
  { s | steps 1 0 init s /\ caller s = CDone (Ok resp1) /\
        table s !! 1%Z = Some 0 /\ reader s = RCleanup 1 }.
Proof.
  eexists. split; [|split; [|split]].
  - eapply steps_cons; [apply st_register; reflexivity|].
    eapply steps_cons; [apply st_write_ok; reflexivity|].
    eapply steps_cons; [apply (st_read_frame 1 0 _ frame1); reflexivity|].
    eapply steps_cons; [apply (st_receive 1 0 _ resp1); reflexivity|].
    apply steps_refl.
  - reflexivity.
  - reflexivity.
  - reflexivity.
Defined.

(** C1 (amended). Every [sendRequest] call ends in exactly one of a
    delivered response, the send error or the timeout error.  On the send
    error and timeout paths the call itself deletes its pending entry
    before returning.  On the response path the reader loop deletes the
    entry right after delivering; when the call returns first, the reader
    is then at that cleanup step, and performing it leaves no entry.  In
    every reachable state the entry has been removed at most once. *)
Theorem sendRequest_single_outcome_cleanup (rid : Z) (ch : nat) (s : state)
  (o : result RPCResponse)
  (Hs : steps rid ch init s) (Hc : caller s = CDone o) :
  ((exists r, o = Ok r) \/ o = Err send_error \/ o = Err ETimeout) /\
  (forall e, o = Err e -> table s !! rid = None /\ removed s = 1) /\
  (forall r, o = Ok r ->
     (table s !! rid = None /\ removed s = 1) \/
     (reader s = RCleanup rid /\
      table (reader_cleanup rid rid s) !! rid = None /\
      removed (reader_cleanup rid rid s) = 1)) /\
  (forall s', steps rid ch s s' -> removed s' <= 1).
Proof.
  destruct (corr_inv_steps rid ch init s Hs (corr_inv_init rid ch))
    as (_ & _ & Hreg & _ & Hok & Herr).
  destruct (Hreg ltac:(congruence)) as [_ Hrm].
  split_and!.
  - destruct o as [r|e]; [left; exists r; reflexivity|].
    destruct (Herr e Hc) as [_ [-> | ->]]; right; [left|right]; reflexivity.
  - intros e ->. destruct (Herr e Hc) as [HT _]. rewrite HT in Hrm. auto.
  - intros r ->. destruct (table s !! rid) as [c|] eqn:HT.
    + right. destruct (Hok r Hc) as [H|H]; [congruence|].
      split; [exact H|].
      destruct (delete_entry_rid rid s) as [HT' HR'].
      unfold reader_cleanup, set_reader; cbn [table removed].
      split; [exact HT'|]. rewrite HR', HT, Hrm. reflexivity.
    + left. auto.
  - intros s' Hs'. exact (removed_at_most_once rid ch s' (steps_trans rid ch _ _ _ Hs Hs')).
Qed.

Lemma sendRequest_single_outcome_cleanup_witness :
  { s | steps 1 0 init s /\ caller s = CDone (Ok resp1) /\
        (((exists r, Ok resp1 = Ok r) \/ Ok resp1 = Err send_error \/ Ok resp1 = Err ETimeout) /\
         (forall e, @Ok RPCResponse resp1 = Err e -> table s !! 1%Z = None /\ removed s = 1) /\
         (forall r, @Ok RPCResponse resp1 = Ok r ->
            (table s !! 1%Z = None /\ removed s = 1) \/
            (reader s = RCleanup 1 /\
             table (reader_cleanup 1 1 s) !! 1%Z = None /\
             removed (reader_cleanup 1 1 s) = 1)) /\
         (forall s', steps 1 0 s s' -> removed s' <= 1)) }.
Proof.
  destruct response_run as [s [Hs [Hc _]]].
  exists s. split; [exact Hs|]. split; [exact Hc|].
  exact (sendRequest_single_outcome_cleanup 1 0 s (Ok resp1) Hs Hc).
Defined.

(** C1 (counterexample). A run in which [sendRequest] has returned the
    delivered response while its pending entry is still in the table: the
    reader loop has not yet executed its [delete]. *)
Lemma sendRequest_entry_outlives_call :
  exists s, steps 1 0 init s /\ caller s = CDone (Ok resp1) /\
            table s !! 1%Z <> None.
Proof.
  destruct response_run as [s [Hs [Hc [HT _]]]].
  exists s. split_and!; [exact Hs|exact Hc|congruence].
Qed.

(** C7. The reader loop's handling of any decodable frame is two
    unconditional steps that end back at the read: when a pending entry
    exists the response goes into its one-slot buffer if the slot is
    empty and is dropped if the slot is full; without an entry it is
    discarded.  The caller's state and the table are untouched by the
    delivery, and the cleanup never touches the buffers. *)
Theorem reader_delivery_nonblocking (rid : Z) (ch : nat) (s : state)
  (res : list jvalue) (resp : RPCResponse)
  (Hr : reader s = RIdle) (Hd : decode_response res = Some resp) :
  let s1 := reader_frame res s in
  let s2 := reader_cleanup rid (RequestID resp) s1 in
  step rid ch s s1 /\ step rid ch s1 s2 /\ reader s2 = RIdle /\
  slots s2 = slots s1 /\ table s1 = table s /\ caller s1 = caller s /\
  match table s !! RequestID resp with
  | Some c =>
      (slots s !! c = Some None -> slots s1 !! c = Some (Some resp)) /\
      (forall r0, slots s !! c = Some (Some r0) -> slots s1 = slots s)
  | None => slots s1 = slots s
  end.
Proof.
  intros s1 s2.
  assert (Hr1 : reader s1 = RCleanup (RequestID resp)).
  { subst s1. unfold reader_frame. rewrite Hd. reflexivity. }
  split_and!.
  - apply st_read_frame. exact Hr.
  - apply st_read_cleanup. exact Hr1.
  - reflexivity.
  - reflexivity.
  - subst s1. unfold reader_frame, deliver, set_reader. rewrite Hd. simpl.
    destruct (table s !! RequestID resp) as [c|]; [|reflexivity].
    destruct (slots s !! c) as [[r0|]|]; reflexivity.
  - subst s1. unfold reader_frame, deliver, set_reader. rewrite Hd. simpl.
    destruct (table s !! RequestID resp) as [c|]; [|reflexivity].
    destruct (slots s !! c) as [[r0|]|]; reflexivity.
  - subst s1. unfold reader_frame, deliver, set_reader. rewrite Hd. simpl.
    destruct (table s !! RequestID resp) as [c|]; [|reflexivity].
    split.
    + intros Hs. rewrite Hs. simpl. apply lookup_insert_eq.
    + intros r0 Hs. rewrite Hs. reflexivity.
Qed.

Lemma reader_delivery_nonblocking_witness :
  let s := mkState (<[1%Z := 0]> ∅) (<[0 := None]> ∅) CWaiting RIdle 0 in
  reader s = RIdle /\ decode_response frame1 = Some resp1 /\
  (let s1 := reader_frame frame1 s in
   let s2 := reader_cleanup 1 (RequestID resp1) s1 in
   step 1 0 s s1 /\ step 1 0 s1 s2 /\ reader s2 = RIdle /\
   slots s2 = slots s1 /\ table s1 = table s /\ caller s1 = caller s /\
   match table s !! RequestID resp1 with
   | Some c =>
       (slots s !! c = Some None -> slots s1 !! c = Some (Some resp1)) /\
       (forall r0, slots s !! c = Some (Some r0) -> slots s1 = slots s)
   | None => slots s1 = slots s
   end).
Proof.
  intros s. split; [reflexivity|]. split; [reflexivity|].
  apply (reader_delivery_nonblocking 1 0 s frame1 resp1); reflexivity.
Defined.

Lemma prefix_refl (m : string) : String.prefix m m = true.
Proof.
  induction m as [|a m IH]; simpl; [reflexivity|].
  destruct (ascii_dec a a) as [_|n]; [exact IH|congruence].
Qed.

Lemma contains_prefix (hay needle : string) :
  String.prefix needle hay = true -> contains hay needle = true.
Proof. intros H. destruct hay; unfold contains; rewrite H; reflexivity. Qed.

Lemma contains_app (p m : string) : contains (p ++ m) m = true.
Proof.
  induction p as [|a p IH].
  - apply contains_prefix, prefix_refl.
  - simpl. rewrite IH. apply orb_true_r.
Qed.

(** C9: what holds, and where the code diverges.  A response whose
    method is ["error"] is decoded and delivered by the reader like any
    other response, and [sendRequest] returns it as a normal response.
    [Authenticate] turns an ["error"] response to [auth_verify] into an
    error carrying the node's message.  The [auth_request] path has no
    such check: an ["error"] response to it, having no
    [challenge_message], yields the generic "invalid challenge response
    format" error and the node's message is lost. *)
Theorem error_response_passed_through :
  (forall i d t,
     decode_response [JNum i; JStr "error"; JObj d; JNum t] =
     Some (mkRPCResponse (u64 i) "error" d (u64 t))) /\
  (forall (rid : Z) (ch : nat) (s : state) (res : list jvalue) (resp : RPCResponse),
     caller s = CWaiting -> table s !! rid = Some ch -> slots s !! ch = Some None ->
     reader s = RIdle -> decode_response res = Some resp -> RequestID resp = rid ->
     exists s', steps rid ch s s' /\ caller s' = CDone (Ok resp)) /\
  (forall cr vr challenge msg,
     as_string (map_get (Data cr) "challenge_message") = Some challenge ->
     Method vr = "error" -> map_get (Data vr) "error" = Some (JStr msg) ->
     Authenticate (Ok cr) (VResponse vr) = Err (EAuthVerify msg) /\
     contains (error_text (EAuthVerify msg)) msg = true) /\
  (forall cr v,
     Method cr = "error" -> as_string (map_get (Data cr) "challenge_message") = None ->
     Authenticate (Ok cr) v = Err EInvalidChallenge).
Proof.
  split_and!.
  - intros i d t. reflexivity.
  - intros rid ch s res resp Hc HT HS Hr Hd Hid.
    set (s1 := reader_frame res s).
    assert (Hs1 : slots s1 !! ch = Some (Some resp)).
    { subst s1. unfold reader_frame, deliver, set_reader. rewrite Hd, Hid, HT, HS.
      simpl. apply lookup_insert_eq. }
    assert (Hc1 : caller s1 = CWaiting).
    { subst s1. unfold reader_frame, deliver, set_reader. rewrite Hd, Hid, HT, HS.
      simpl. exact Hc. }
    eexists. split.
    + eapply steps_cons; [apply st_read_frame; exact Hr|].
      eapply steps_cons; [apply (st_receive rid ch s1 resp Hc1 Hs1)|].
      apply steps_refl.
    + reflexivity.
  - intros cr vr challenge msg Hch Hm He. unfold Authenticate.
    rewrite Hch, Hm, He. split; [reflexivity|].
    exact (contains_app "auth_verify error: " msg).
  - intros cr v _ Hch. unfold Authenticate. rewrite Hch. reflexivity.
Qed.

(** C9 (failing input). The node answers [auth_request] with an
    ["error"] response carrying "rate limited"; [Authenticate] fails with
    "invalid challenge response format", which does not carry it. *)
Lemma auth_request_error_message_dropped :
  Authenticate (Ok (mkRPCResponse 1 "error" [("error", JStr "rate limited")] 5)) VTimeout
    = Err EInvalidChallenge /\
  contains (error_text EInvalidChallenge) "rate limited" = false.
Proof. split; reflexivity. Qed.

End CorrelatorTheorems.

Section TransferAndBalance.

(** C5 (amended). [Transfer], connected and given a success response
    whose [transactions] field is a list, reports the requested asset and
    amount when that list is empty or starts with an object: the
    transaction id is the [id] of the first element when it is a string,
    and empty when the list is empty or that [id] is missing or not a
    string.  A first element that is not an object makes [Transfer] fail
    with "invalid transaction data format"; an absent or non-list
    [transactions] field makes it fail with "invalid transfer response
    format". *)
Theorem transfer_result_fields (send : string -> jvalue -> result RPCResponse)
  (destination asset amount : string) (resp : RPCResponse)
  (Hsend : send "transfer" (transfer_params destination asset amount) = Ok resp) :
  (forall tx0 rest txData txID,
     as_list (map_get (Data resp) "transactions") = Some (tx0 :: rest) ->
     as_map tx0 = Some txData -> map_get txData "id" = Some (JStr txID) ->
     snd (Transfer true send destination asset amount) =
       Ok (mkTransferResult txID amount asset destination "completed")) /\
  (as_list (map_get (Data resp) "transactions") = Some [] ->
     snd (Transfer true send destination asset amount) =
       Ok (mkTransferResult "" amount asset destination "completed")) /\
  (as_list (map_get (Data resp) "transactions") = None ->
     snd (Transfer true send destination asset amount) =
       Err (EWrap "failed to parse transfer result" EInvalidTransfer)) /\
  (forall tx0 rest txData,
     as_list (map_get (Data resp) "transactions") = Some (tx0 :: rest) ->
     as_map tx0 = Some txData -> as_string (map_get txData "id") = None ->
     snd (Transfer true send destination asset amount) =
       Ok (mkTransferResult "" amount asset destination "completed")) /\
  (forall tx0 rest,
     as_list (map_get (Data resp) "transactions") = Some (tx0 :: rest) ->
     as_map tx0 = None ->
     snd (Transfer true send destination asset amount) =
       Err (EWrap "failed to parse transfer result" EInvalidTxData)).
Proof.
  unfold Transfer, parseTransferResult; simpl; rewrite Hsend.
  split_and!.
  - intros tx0 rest txData txID Hl Hm Hid. rewrite Hl, Hm, Hid. reflexivity.
  - intros Hl. rewrite Hl. reflexivity.
  - intros Hl. rewrite Hl. reflexivity.
  - intros tx0 rest txData Hl Hm Hid. rewrite Hl, Hm, Hid. reflexivity.
  - intros tx0 rest Hl Hm. rewrite Hl, Hm. reflexivity.
Qed.

Definition transfer_echo : string -> jvalue -> result RPCResponse :=
  fun _ _ => Ok (mkRPCResponse 1 "transfer"
                   [("transactions", JArr [JObj [("id", JStr "tx-1")]])] 5).

Lemma transfer_result_fields_witness :
  transfer_echo "transfer" (transfer_params "0xABC" "usdc" "10") =
    Ok (mkRPCResponse 1 "transfer" [("transactions", JArr [JObj [("id", JStr "tx-1")]])] 5) /\
  snd (Transfer true transfer_echo "0xABC" "usdc" "10") =
    Ok (mkTransferResult "tx-1" "10" "usdc" "0xABC" "completed").
Proof.
  split; [reflexivity|].
  destruct (transfer_result_fields transfer_echo "0xABC" "usdc" "10"
              (mkRPCResponse 1 "transfer" [("transactions", JArr [JObj [("id", JStr "tx-1")]])] 5)
              eq_refl) as [H _].
  apply (H (JObj [("id", JStr "tx-1")]) [] [("id", JStr "tx-1")] "tx-1"); reflexivity.
Defined.

(** C5 (counterexample). A success response without a [transactions]
    field makes [Transfer] fail instead of reporting success with an
    empty transaction id. *)
Lemma transfer_without_transactions_fails :
  snd (Transfer true (fun _ _ => Ok (mkRPCResponse 1 "transfer" [] 5)) "0xABC" "usdc" "10")
    = Err (EWrap "failed to parse transfer result" EInvalidTransfer).
Proof. reflexivity. Qed.

(** No ledger entry has both the requested asset and a string amount. *)
Definition no_usable_entry (tokenSymbol : string) (v : jvalue) : Prop :=
  forall m, as_map v = Some m ->
  as_string (map_get m "asset") = Some tokenSymbol ->
  as_string (map_get m "amount") = None.

Lemma find_balance_none (l : list jvalue) (tokenSymbol : string) :
  Forall (no_usable_entry tokenSymbol) l -> find_balance l tokenSymbol = None.
Proof.
  induction 1 as [|v l Hv Hl IH]; [reflexivity|].
  simpl. destruct (as_map v) as [m|] eqn:Hm; [|exact IH].
  destruct (as_string (map_get m "asset")) as [a|] eqn:Ha; [|exact IH].
  destruct (String.eqb_spec a tokenSymbol) as [->|Hne]; [|exact IH].
  rewrite (Hv m Hm Ha). exact IH.
Qed.

(** C10. For a received [get_ledger_balances] response whose
    [ledger_balances] field is a list in which no entry has both the
    requested asset and a string amount, [GetFaucetBalance] returns a
    balance of "0" for that symbol; it returns an error exactly when the
    field is missing or not a list. *)
Theorem faucet_balance_defaults_to_zero (send : string -> jvalue -> result RPCResponse)
  (tokenSymbol : string) (resp : RPCResponse)
  (Hsend : send "get_ledger_balances" (JObj []) = Ok resp) :
  (forall l, as_list (map_get (Data resp) "ledger_balances") = Some l ->
     Forall (no_usable_entry tokenSymbol) l ->
     snd (GetFaucetBalance true send tokenSymbol) = Ok (mkBalance tokenSymbol "0")) /\
  ((exists b, snd (GetFaucetBalance true send tokenSymbol) = Ok b) <->
   (exists l, as_list (map_get (Data resp) "ledger_balances") = Some l)).
Proof.
  unfold GetFaucetBalance, parseTokenBalance; simpl; rewrite Hsend.
  split.
  - intros l Hl Hf. rewrite Hl, (find_balance_none l tokenSymbol Hf). reflexivity.
  - destruct (as_list (map_get (Data resp) "ledger_balances")) as [l|].
    + split; intros _; [exists l; reflexivity|].
      destruct (find_balance l tokenSymbol) as [b|]; eexists; reflexivity.
    + split; intros [x Hx]; discriminate.
Qed.

Definition ledger_reply : string -> jvalue -> result RPCResponse :=
  fun _ _ => Ok (mkRPCResponse 2 "get_ledger_balances"
                   [("ledger_balances", JArr [JObj [("asset", JStr "weth");
                                                    ("amount", JStr "5")];
                                              JObj [("asset", JStr "usdc")]])] 5).

Lemma faucet_balance_defaults_to_zero_witness :
  snd (GetFaucetBalance true ledger_reply "usdc") = Ok (mkBalance "usdc" "0").
Proof.
  destruct (faucet_balance_defaults_to_zero ledger_reply "usdc" _ eq_refl) as [H _].
  apply (H [JObj [("asset", JStr "weth"); ("amount", JStr "5")]; JObj [("asset", JStr "usdc")]]).
  - reflexivity.
  - constructor; [|constructor; [|constructor]];
      intros m Hm Ha; simpl in Hm; injection Hm as <-; simpl in *;
      [discriminate|reflexivity].
Defined.

End TransferAndBalance.

Section ConnectionTheorems.
Import Connection.

Lemma run_disconnected (send : string -> jvalue -> result RPCResponse)
  (s : conn_state) (ops : list op) :
  isConnected s = false -> forallb (fun o => negb (reconnects o)) ops = true ->
  isConnected (fst (run send s ops)) = false /\
  Forall (fun r => r = ([], Err ENotConnected)) (snd (run send s ops)).
Proof.
  revert s. induction ops as [|o ops IH]; intros s Hs Hops; simpl in *.
  - split; [exact Hs|constructor].
  - apply andb_prop in Hops as [Ho Hops].
    destruct o as [ok| | |d a m]; simpl in *.
    + destruct ok; [discriminate|]. apply IH; assumption.
    + apply IH; [unfold reader_exit; destruct (readerRunning s); [reflexivity|assumption]|assumption].
    + apply IH; [reflexivity|assumption].
    + destruct (IH s Hs Hops) as [H1 H2].
      destruct (run send s ops) as [s' rs]. simpl in *.
      split; [exact H1|]. constructor; [|exact H2].
      unfold Transfer. rewrite Hs. reflexivity.
Qed.

(** C6. After a read error ends the reader loop, [IsConnected()] is
    false, and every subsequent [Transfer] call (the connection staying
    dead: no successful [Connect()] in between) returns the Not-Connected
    error at once, without handing anything to [sendRequest]. *)
Theorem read_error_disconnects_until_reconnect
  (send : string -> jvalue -> result RPCResponse) (s : conn_state) (ops : list op)
  (Hrun : readerRunning s = true) :
  IsConnected (reader_exit s) = false /\
  (forallb (fun o => negb (reconnects o)) ops = true ->
   Forall (fun r => r = ([], Err ENotConnected)) (snd (run send (reader_exit s) ops))).
Proof.
  assert (H0 : isConnected (reader_exit s) = false).
  { unfold reader_exit. rewrite Hrun. reflexivity. }
  split; [exact H0|].
  intros Hops. exact (proj2 (run_disconnected send (reader_exit s) ops H0 Hops)).
Qed.

Lemma read_error_disconnects_until_reconnect_witness :
  IsConnected (reader_exit (mkConn true true true)) = false /\
  Forall (fun r => r = ([], Err ENotConnected))
    (snd (run (fun _ _ => Err ETimeout) (reader_exit (mkConn true true true))
              [OpTransfer "0xABC" "usdc" "10"; OpConnect false; OpTransfer "0xABC" "usdc" "10"])).
Proof.
  destruct (read_error_disconnects_until_reconnect (fun _ _ => Err ETimeout)
              (mkConn true true true)
              [OpTransfer "0xABC" "usdc" "10"; OpConnect false; OpTransfer "0xABC" "usdc" "10"]
              eq_refl) as [H1 H2].
  split; [exact H1|]. apply H2. reflexivity.
Defined.

End ConnectionTheorems.

(* ------------------------------------------------------------------ *)
(** ** The operational check *)

Section OperationalTheorems.
Import Operational.

Lemma pow10_pos (n : Z) : (0 <= n)%Z -> (0 < 10 ^ n)%Z.
Proof. intros; apply Z.pow_pos_nonneg; lia. Qed.

(** [LessThan] is the strict order of the exact rational values. *)
Lemma LessThan_Qlt (d1 d2 : Decimal) :
  LessThan d1 d2 = true <-> Qlt (to_Q d1) (to_Q d2).
Proof.
  destruct d1 as [v1 e1], d2 as [v2 e2].
  unfold LessThan, Cmp, rescale, to_Q, Qlt; cbn [value exp Qnum Qden].
  rewrite !Z2Pos.id by (apply pow10_pos; lia).
  assert (Hc : (0 <= Z.max (- e1) 0 + Z.max (- e2) 0 + Z.min e1 e2)%Z) by lia.
  assert (H1 : (Z.max e1 0 + Z.max (- e2) 0 =
                (e1 - Z.min e1 e2) + (Z.max (- e1) 0 + Z.max (- e2) 0 + Z.min e1 e2))%Z) by lia.
  assert (H2 : (Z.max e2 0 + Z.max (- e1) 0 =
                (e2 - Z.min e1 e2) + (Z.max (- e1) 0 + Z.max (- e2) 0 + Z.min e1 e2))%Z) by lia.
  rewrite <- !Z.mul_assoc, <- !Z.pow_add_r by lia.
  rewrite H1, H2.
  rewrite (Z.pow_add_r 10 (e1 - Z.min e1 e2)) by lia.
  rewrite (Z.pow_add_r 10 (e2 - Z.min e1 e2)) by lia.
  rewrite !Z.mul_assoc.
  pose proof (pow10_pos _ Hc) as Hp.
  remember (10 ^ (Z.max (- e1) 0 + Z.max (- e2) 0 + Z.min e1 e2))%Z as p.
  remember (v1 * 10 ^ (e1 - Z.min e1 e2))%Z as x.
  remember (v2 * 10 ^ (e2 - Z.min e1 e2))%Z as y.
  destruct (Z.compare_spec x y) as [Hxy|Hxy|Hxy]; split; intros Hq; try discriminate; try reflexivity; nia.
Qed.

Lemma validateTokenSupport_ok (assets : list Asset) (sym : string) :
  validateTokenSupport (Ok assets) sym = Ok tt <-> exists a, In a assets /\ Symbol a = sym.
Proof.
  unfold validateTokenSupport.
  destruct (existsb (fun a => String.eqb (Symbol a) sym) assets) eqn:E.
  - apply existsb_exists in E as (a & Ha & Hs).
    apply String.eqb_eq in Hs. split; [intros _; eauto | reflexivity].
  - split; [discriminate|]. intros (a & Ha & Hs).
    assert (existsb (fun a => String.eqb (Symbol a) sym) assets = true) as E'
      by (apply existsb_exists; exists a; split; [exact Ha | apply String.eqb_eq; exact Hs]).
    congruence.
Qed.

(** C4: given the node's asset list and the faucet's balance, the
    operational check succeeds exactly when the symbol is among the
    supported assets and the balance is not strictly below tip x count
    (as rational numbers); every failure is the unsupported-token or the
    insufficient-balance error, in the matching situation.  With the
    asset list [[{symbol:"usdc", decimals:6, ...}]], balance 1000000000,
    tip 10 and count 10000, the check succeeds. *)
Theorem EnsureOperational_exact (assets : list Asset) (bal : DBalance) (sym : string)
  (tip : Decimal) (minTransferCount : Z) :
  (EnsureOperational (Ok assets) (Ok bal) sym tip minTransferCount = Ok tt <->
     (exists a, In a assets /\ Symbol a = sym) /\
     ~ Qlt (to_Q (DAmount bal)) (to_Q (Mul tip (NewFromInt minTransferCount)))) /\
  (forall e, EnsureOperational (Ok assets) (Ok bal) sym tip minTransferCount = Err e ->
     (e = ETokenUnsupported sym /\ ~ exists a, In a assets /\ Symbol a = sym) \/
     (e = EInsufficient sym /\ (exists a, In a assets /\ Symbol a = sym) /\
      Qlt (to_Q (DAmount bal)) (to_Q (Mul tip (NewFromInt minTransferCount))))) /\
  EnsureOperational
    (parseAssets [("assets", JArr [JObj [("token", JStr "0x1c7D4B196Cb0C7B01d743Fbc6116a902379C7238");
                                         ("chain_id", JNum 11155111); ("symbol", JStr "usdc");
                                         ("decimals", JNum 6)]])])
    (Ok (mkDBalance "usdc" (mkDecimal 1000000000 0))) "usdc"
    (mkDecimal 10 0) 10000 = Ok tt.
Proof.
  pose proof (validateTokenSupport_ok assets sym) as Hv.
  pose proof (LessThan_Qlt (DAmount bal) (Mul tip (NewFromInt minTransferCount))) as Hl.
  unfold EnsureOperational, checkFaucetBalance.
  split_and!; [| |reflexivity].
  - destruct (validateTokenSupport (Ok assets) sym) as [[]|e] eqn:Ev.
    + destruct (LessThan _ _) eqn:El.
      * split; [discriminate|]. intros [_ Hn]. exfalso. apply Hn, Hl; reflexivity.
      * split; [intros _|reflexivity]. split; [apply Hv; reflexivity|].
        intros Hq. apply Hl in Hq. congruence.
    + split; [discriminate|]. intros [Hs _]. apply Hv in Hs. discriminate.
  - intros e He.
    destruct (validateTokenSupport (Ok assets) sym) as [[]|e'] eqn:Ev.
    + destruct (LessThan _ _) eqn:El; [|discriminate].
      injection He as <-. right. split_and!; [reflexivity| apply Hv; reflexivity | apply Hl; reflexivity].
    + left. unfold validateTokenSupport in Ev.
      destruct (existsb _ _); [discriminate|]. injection Ev as <-. injection He as <-.
      split; [reflexivity|]. intros Hs. apply Hv in Hs. discriminate.
Qed.

End OperationalTheorems.

(* ------------------------------------------------------------------ *)
(** ** Client construction and key separation *)

Section IdentityTheorems.
Import Identity.

Lemma HexToECDSA_valid (s : string) (k : Z) : HexToECDSA s = Some k -> valid_key k.
Proof.
  unfold HexToECDSA, valid_key.
  destruct (Nat.eqb _ _); [|discriminate].
  destruct (hex_value s 0) as [d|]; [|discriminate].
  destruct (0 <? d)%Z eqn:E1, (d <? secp256k1N)%Z eqn:E2; simpl; try discriminate.
  intros Hk; injection Hk as <-. apply Z.ltb_lt in E1, E2. lia.
Qed.

Lemma strip0x_prefixed (s : string) : s <> EmptyString -> strip0x ("0x" ++ s) = s.
Proof. destruct s; [congruence|reflexivity]. Qed.

(** C2: when the authentication (owner) key and the transaction-signing
    key parse to the same private key, whatever [0x] prefixes they carry,
    the two-identity constructor returns the key-separation error and no
    client.  The constructor is pure: it returns before [Connect] could
    open any connection. *)
Theorem NewClientTwoKeys_same_key_rejected (ownerHex signerHex clearnodeURL : string) (k : Z)
  (Howner : HexToECDSA (strip0x ownerHex) = Some k)
  (Hsigner : HexToECDSA (strip0x signerHex) = Some k) :
  NewClientTwoKeys ownerHex signerHex clearnodeURL = Err EKeysNotDistinct.
Proof. unfold NewClientTwoKeys. rewrite Howner, Hsigner, Z.eqb_refl. reflexivity. Qed.

Lemma NewClientTwoKeys_same_key_rejected_witness :
  HexToECDSA (strip0x "abcdef1234567890abcdef1234567890abcdef1234567890abcdef1234567890")
    = Some 77709350764185855408287693549593239255085467490111679351481920235283336820880%Z /\
  HexToECDSA (strip0x ("0x" ++ "abcdef1234567890abcdef1234567890abcdef1234567890abcdef1234567890"))
    = Some 77709350764185855408287693549593239255085467490111679351481920235283336820880%Z /\
  NewClientTwoKeys "abcdef1234567890abcdef1234567890abcdef1234567890abcdef1234567890"
    ("0x" ++ "abcdef1234567890abcdef1234567890abcdef1234567890abcdef1234567890")
    "ws://localhost:8000/ws" = Err EKeysNotDistinct.
Proof.
  split_and!; [vm_compute; reflexivity | vm_compute; reflexivity |].
  apply (NewClientTwoKeys_same_key_rejected _ _ _
           77709350764185855408287693549593239255085467490111679351481920235283336820880%Z);
    vm_compute; reflexivity.
Defined.

Section KeySeparation.
Context {H S A : Type}.
Variable sign : Z -> H -> S.
Variable recover : H -> S -> option A.
Variable pubaddr : Z -> A.
Variable normalizeV : S -> S.
(** ECDSA recovery returns the signer's address; [V += 27] keeps the
    recovered address; distinct valid keys have distinct addresses. *)
Hypothesis recover_sign : forall k h, valid_key k -> recover h (sign k h) = Some (pubaddr k).
Hypothesis recover_normalizeV : forall h sg, recover h (normalizeV sg) = recover h sg.
Hypothesis pubaddr_inj :
  forall k1 k2, valid_key k1 -> valid_key k2 -> pubaddr k1 = pubaddr k2 -> k1 = k2.

Lemma NewClientTwoKeys_keys (ownerHex signerHex clearnodeURL : string) (c : Client) :
  NewClientTwoKeys ownerHex signerHex clearnodeURL = Ok c ->
  valid_key (eip712SignerKey c) /\ valid_key (privateKey c) /\
  eip712SignerKey c <> privateKey c.
Proof.
  unfold NewClientTwoKeys.
  destruct (HexToECDSA (strip0x ownerHex)) as [ok|] eqn:Ho; [|discriminate].
  destruct (HexToECDSA (strip0x signerHex)) as [sk|] eqn:Hs; [|discriminate].
  destruct (Z.eqb ok sk) eqn:E; [discriminate|].
  intros Hc; injection Hc as <-; cbn [eip712SignerKey privateKey].
  apply Z.eqb_neq in E.
  split_and!; [eapply HexToECDSA_valid; exact Ho | eapply HexToECDSA_valid; exact Hs | exact E].
Qed.

(** C3: for every client of the two-identity constructor, the structured
    challenge signature is made with the authentication key and the
    per-request signature with the transaction-signing key; the keys
    differ, each signature is accepted under its own identity's address,
    and neither is accepted under the other identity's address. *)
Theorem two_identity_key_separation (ownerHex signerHex clearnodeURL : string) (c : Client)
  (Hc : NewClientTwoKeys ownerHex signerHex clearnodeURL = Ok c) :
  eip712SignerKey c <> privateKey c /\
  (forall h, node_accepts recover (pubaddr (eip712SignerKey c)) h
               (structured_signature sign normalizeV c h)) /\
  (forall h, node_accepts recover (pubaddr (privateKey c)) h (request_signature sign c h)) /\
  (forall h, ~ node_accepts recover (pubaddr (privateKey c)) h
                 (structured_signature sign normalizeV c h)) /\
  (forall h, ~ node_accepts recover (pubaddr (eip712SignerKey c)) h
                 (request_signature sign c h)).
Proof.
  destruct (NewClientTwoKeys_keys _ _ _ _ Hc) as (Vo & Vs & Hne).
  unfold node_accepts, structured_signature, request_signature.
  split_and!; [exact Hne | | | |]; intros h.
  - rewrite recover_normalizeV. apply recover_sign, Vo.
  - apply recover_sign, Vs.
  - rewrite recover_normalizeV, recover_sign by exact Vo.
    intros E; injection E as E. apply Hne, pubaddr_inj; assumption.
  - rewrite recover_sign by exact Vs.
    intros E; injection E as E. apply Hne, pubaddr_inj; [assumption|assumption|symmetry; exact E].
Qed.

End KeySeparation.

Lemma two_identity_key_separation_witness :
  exists c,
    NewClientTwoKeys "abcdef1234567890abcdef1234567890abcdef1234567890abcdef1234567890"
      "0xfedcba0987654321fedcba0987654321fedcba0987654321fedcba0987654321"
      "ws://localhost:8000/ws" = Ok c /\
    eip712SignerKey c <> privateKey c /\
    (forall h : Z, node_accepts (fun h sg => if Z.eqb h (snd sg) then Some (fst sg) else None)
                     (eip712SignerKey c) h
                     (structured_signature (fun k h => (k, h)) (fun sg => sg) c h)) /\
    (forall h : Z, node_accepts (fun h sg => if Z.eqb h (snd sg) then Some (fst sg) else None)
                     (privateKey c) h (request_signature (fun k h => (k, h)) c h)) /\
    (forall h : Z, ~ node_accepts (fun h sg => if Z.eqb h (snd sg) then Some (fst sg) else None)
                       (privateKey c) h
                       (structured_signature (fun k h => (k, h)) (fun sg => sg) c h)) /\
    (forall h : Z, ~ node_accepts (fun h sg => if Z.eqb h (snd sg) then Some (fst sg) else None)
                       (eip712SignerKey c) h (request_signature (fun k h => (k, h)) c h)).
Proof.
  destruct (NewClientTwoKeys "abcdef1234567890abcdef1234567890abcdef1234567890abcdef1234567890"
      "0xfedcba0987654321fedcba0987654321fedcba0987654321fedcba0987654321"
      "ws://localhost:8000/ws") as [c|e] eqn:Hc; [|vm_compute in Hc; discriminate].
  exists c. split; [reflexivity|].
  assert (Hrs : forall k h : Z, valid_key k ->
            (fun h sg => if Z.eqb h (snd sg) then Some (fst sg) else None) h ((fun k h => (k, h)) k h)
            = Some ((fun k : Z => k) k))
    by (intros k h _; cbn; rewrite Z.eqb_refl; reflexivity).
  assert (Hrn : forall (h : Z) (sg : Z * Z),
            (fun h sg => if Z.eqb h (snd sg) then Some (fst sg) else None) h ((fun sg => sg) sg)
            = (fun h sg => if Z.eqb h (snd sg) then Some (fst sg) else None) h sg)
    by reflexivity.
  assert (Hinj : forall k1 k2 : Z, valid_key k1 -> valid_key k2 ->
            (fun k : Z => k) k1 = (fun k : Z => k) k2 -> k1 = k2)
    by (intros k1 k2 _ _ E; exact E).
  exact (two_identity_key_separation _ _ _ _ Hrs Hrn Hinj _ _ _ _ Hc).
Defined.

(** C3, for the single-key [NewClient] of client.go: [eip712Signer] and
    [signMessage] use the one key, so for any ECDSA recovery the structured
    challenge signature is accepted under the address the node expects
    for transaction signatures. *)
Lemma single_key_client_signatures_cross_verify :
  exists c,
    NewClient "abcdef1234567890abcdef1234567890abcdef1234567890abcdef1234567890"
      "ws://localhost:8000/ws" = Ok c /\
    eip712SignerKey c = privateKey c /\
    forall (H S A : Type) (sign : Z -> H -> S) (recover : H -> S -> option A)
      (pubaddr : Z -> A) (normalizeV : S -> S),
      (forall k h, valid_key k -> recover h (sign k h) = Some (pubaddr k)) ->
      (forall h sg, recover h (normalizeV sg) = recover h sg) ->
      forall h, node_accepts recover (pubaddr (privateKey c)) h
                  (structured_signature sign normalizeV c h).
Proof.
  unfold NewClient.
  destruct (HexToECDSA (strip0x "abcdef1234567890abcdef1234567890abcdef1234567890abcdef1234567890"))
    as [k|] eqn:Hk; [|vm_compute in Hk; discriminate].
  exists (mkClient k k "ws://localhost:8000/ws").
  split_and!; [reflexivity | reflexivity |].
  intros H S A sign recover pubaddr normalizeV Hrs Hrn h.
  unfold node_accepts, structured_signature; cbn [eip712SignerKey privateKey].
  rewrite Hrn. apply Hrs. eapply HexToECDSA_valid; exact Hk.
Qed.

End IdentityTheorems.

(* ------------------------------------------------------------------ *)
(** ** The signed bytes of a request *)

Section MarshalTheorems.
Import Marshal.

Lemma string_compare_lt_trans (a : string) :
  forall b c, String.compare a b = Lt -> String.compare b c = Lt -> String.compare a c = Lt.
Proof.
  induction a as [|x a IH]; intros [|y b] [|z c]; simpl; try discriminate; auto.
  unfold Ascii.compare.
  destruct (N.compare_spec (N_of_ascii x) (N_of_ascii y)) as [Hxy|Hxy|Hxy];
  destruct (N.compare_spec (N_of_ascii y) (N_of_ascii z)) as [Hyz|Hyz|Hyz];
  intros H1 H2; try discriminate;
  destruct (N.compare_spec (N_of_ascii x) (N_of_ascii z)); try lia; eauto.
Qed.

Lemma string_leb_trans (a b c : string) :
  String.leb a b = true -> String.leb b c = true -> String.leb a c = true.
Proof.
  unfold String.leb.
  destruct (String.compare a b) eqn:Eab; try discriminate;
  destruct (String.compare b c) eqn:Ebc; try discriminate; intros _ _.
  - apply String.compare_eq_iff in Eab. subst. rewrite Ebc. reflexivity.
  - apply String.compare_eq_iff in Eab. subst. rewrite Ebc. reflexivity.
  - apply String.compare_eq_iff in Ebc. subst. rewrite Eab. reflexivity.
  - rewrite (string_compare_lt_trans a b c Eab Ebc). reflexivity.
Qed.

#[local] Instance key_le_trans : Transitive key_le.
Proof. intros x y z; unfold key_le; apply string_leb_trans. Qed.

#[local] Instance key_le_total : Total key_le.
Proof. intros x y; unfold key_le; apply String.leb_total. Qed.

Lemma NoDup_keys_unique {B : Type} (l : list (string * B)) (a b : string * B) :
  NoDup (List.map fst l) -> In a l -> In b l -> fst a = fst b -> a = b.
Proof.
  induction l as [|e l IH]; simpl; [tauto|].
  intros Hnd Ha Hb Hk. inversion Hnd as [|? ? Hnotin Hnd']; subst.
  destruct Ha as [<-|Ha], Hb as [<-|Hb]; auto.
  - exfalso; apply Hnotin. rewrite Hk. apply list_elem_of_In, in_map, Hb.
  - exfalso; apply Hnotin. rewrite <- Hk. apply list_elem_of_In, in_map, Ha.
Qed.

Definition marshal_entries (m : list (string * jvalue)) : list (string * string) :=
  List.map (fun '(k, x) => (k, marshal x)) m.

Lemma marshal_entries_keys (m : list (string * jvalue)) :
  List.map fst (marshal_entries m) = List.map fst m.
Proof. induction m as [|[k x] m IH]; simpl; [reflexivity|]. rewrite IH. reflexivity. Qed.

Lemma marshal_obj (m : list (string * jvalue)) :
  marshal (JObj m) =
  "{" ++ String.concat "," (List.map encode_entry (merge_sort key_le (marshal_entries m))) ++ "}".
Proof. reflexivity. Qed.

(** Sorting makes the encoding of a map independent of the order of its
    entries. *)
Lemma sorted_entries_perm (m1 m2 : list (string * string)) :
  NoDup (List.map fst m1) -> Permutation m1 m2 ->
  merge_sort key_le m1 = merge_sort key_le m2.
Proof.
  intros Hnd Hp.
  apply (StronglySorted_unique_strong key_le).
  - intros x1 x2 Hx1 Hx2 H12 H21.
    apply (NoDup_keys_unique m1); [exact Hnd | | | apply String.leb_antisym; assumption].
    + apply list_elem_of_In. rewrite <- (merge_sort_Permutation key_le m1). exact Hx1.
    + apply list_elem_of_In. rewrite Hp, <- (merge_sort_Permutation key_le m2). exact Hx2.
  - apply StronglySorted_merge_sort; typeclasses eauto.
  - apply StronglySorted_merge_sort; typeclasses eauto.
  - rewrite !merge_sort_Permutation. exact Hp.
Qed.

Lemma marshal_same_value (v1 v2 : jvalue) : same_value v1 v2 -> marshal v1 = marshal v2.
Proof.
  induction 1 as [v|u v w _ IH1 _ IH2|m1 m2 Hnd Hp|l1 l2 k x y _ IH|l1 l2 k x y _ IH
                 |l1 l2 x y _ IH].
  - reflexivity.
  - congruence.
  - rewrite !marshal_obj. f_equal. f_equal. f_equal. f_equal.
    apply sorted_entries_perm; [rewrite marshal_entries_keys; exact Hnd|].
    apply Permutation_map, Hp.
  - rewrite !marshal_obj. unfold marshal_entries. rewrite !map_app. simpl. rewrite IH.
    reflexivity.
  - simpl. rewrite !map_app. simpl. rewrite IH. reflexivity.
  - simpl. rewrite !map_app. simpl. rewrite IH. reflexivity.
Qed.

Lemma string_append_assoc (a b c : string) : (a ++ b) ++ c = a ++ b ++ c.
Proof. induction a as [|x a IH]; [reflexivity|]. exact (f_equal (String x) IH). Qed.

(** C8: the bytes [signMessage] hashes are the JSON array
    [[id,"method",params,timestamp]] of the request tuple, and they depend
    only on the logical request: serializing two representations of the
    same parameters (for instance the same Go map iterated in another
    order) gives identical signer input, hence the same Keccak256 hash
    and signature. *)
Theorem signer_input_deterministic {H S : Type} (keccak : string -> H) (sign : Z -> H -> S)
  (privateKey requestID timestamp : Z) (method : string) (params1 params2 : jvalue)
  (Hsame : same_value params1 params2) :
  signer_input requestID method params1 timestamp =
    "[" ++ pretty requestID ++ "," ++ encode_string method ++ "," ++ marshal params1 ++ ","
        ++ pretty timestamp ++ "]" /\
  signer_input requestID method params1 timestamp =
    signer_input requestID method params2 timestamp /\
  keccak (signer_input requestID method params1 timestamp) =
    keccak (signer_input requestID method params2 timestamp) /\
  signMessage keccak sign privateKey requestID method params1 timestamp =
    signMessage keccak sign privateKey requestID method params2 timestamp.
Proof.
  assert (E : signer_input requestID method params1 timestamp =
              signer_input requestID method params2 timestamp).
  { unfold signer_input, request_tuple. simpl. rewrite (marshal_same_value _ _ Hsame).
    reflexivity. }
  unfold signMessage. rewrite <- E.
  split_and!; [|reflexivity..].
  unfold signer_input, request_tuple. simpl. rewrite !string_append_assoc. reflexivity.
Qed.

Lemma signer_input_deterministic_witness :
  same_value
    (JObj [("address", JStr "0xAbC0000000000000000000000000000000000001");
           ("session_key", JStr "0xAbC0000000000000000000000000000000000001");
           ("app_name", JStr "Nitrolite Faucet"); ("scope", JStr "app.transfer");
           ("expire", JStr "36000000");
           ("application", JStr "0x0000000000000000000000000000000000000000");
           ("allowances", JArr [])])
    (JObj [("allowances", JArr []);
           ("application", JStr "0x0000000000000000000000000000000000000000");
           ("expire", JStr "36000000"); ("scope", JStr "app.transfer");
           ("app_name", JStr "Nitrolite Faucet");
           ("session_key", JStr "0xAbC0000000000000000000000000000000000001");
           ("address", JStr "0xAbC0000000000000000000000000000000000001")]) /\
  (let p1 := JObj [("address", JStr "0xAbC0000000000000000000000000000000000001");
                   ("session_key", JStr "0xAbC0000000000000000000000000000000000001");
                   ("app_name", JStr "Nitrolite Faucet"); ("scope", JStr "app.transfer");
                   ("expire", JStr "36000000");
                   ("application", JStr "0x0000000000000000000000000000000000000000");
                   ("allowances", JArr [])] in
   let p2 := JObj [("allowances", JArr []);
                   ("application", JStr "0x0000000000000000000000000000000000000000");
                   ("expire", JStr "36000000"); ("scope", JStr "app.transfer");
                   ("app_name", JStr "Nitrolite Faucet");
                   ("session_key", JStr "0xAbC0000000000000000000000000000000000001");
                   ("address", JStr "0xAbC0000000000000000000000000000000000001")] in
   signer_input 1 "auth_request" p1 1700000000000 =
     "[" ++ pretty 1%Z ++ "," ++ encode_string "auth_request" ++ "," ++ marshal p1 ++ ","
         ++ pretty 1700000000000%Z ++ "]" /\
   signer_input 1 "auth_request" p1 1700000000000 =
     signer_input 1 "auth_request" p2 1700000000000 /\
   (fun s : string => s) (signer_input 1 "auth_request" p1 1700000000000) =
     (fun s : string => s) (signer_input 1 "auth_request" p2 1700000000000) /\
   signMessage (fun s : string => s) (fun (k : Z) (h : string) => (k, h)) 7
     1 "auth_request" p1 1700000000000 =
   signMessage (fun s : string => s) (fun (k : Z) (h : string) => (k, h)) 7
     1 "auth_request" p2 1700000000000).
Proof.
  assert (Hs : same_value
    (JObj [("address", JStr "0xAbC0000000000000000000000000000000000001");
           ("session_key", JStr "0xAbC0000000000000000000000000000000000001");
           ("app_name", JStr "Nitrolite Faucet"); ("scope", JStr "app.transfer");
           ("expire", JStr "36000000");
           ("application", JStr "0x0000000000000000000000000000000000000000");
           ("allowances", JArr [])])
    (JObj [("allowances", JArr []);
           ("application", JStr "0x0000000000000000000000000000000000000000");
           ("expire", JStr "36000000"); ("scope", JStr "app.transfer");
           ("app_name", JStr "Nitrolite Faucet");
           ("session_key", JStr "0xAbC0000000000000000000000000000000000001");
           ("address", JStr "0xAbC0000000000000000000000000000000000001")])).
  { apply sv_map_perm.
    - refine (bool_decide_unpack _ _). vm_compute. exact I.
    - exact (Permutation_rev _). }
  split; [exact Hs|].
  exact (signer_input_deterministic (fun s : string => s) (fun (k : Z) (h : string) => (k, h))
           7 1 1700000000000 "auth_request" _ _ Hs).
Defined.

End MarshalTheorems.

(* ------------------------------------------------------------------ *)
(** ** Addresses *)

Section AddrTheorems.
Import Addr.

Lemma small_nat_cases (n : Z) : (0 <= n < 16)%Z ->
  exists k, (k < 16)%nat /\ n = Z.of_nat k.
Proof. intros H. exists (Z.to_nat n). split; lia. Qed.

Lemma hex_digit_hexchar (n : Z) : (0 <= n < 16)%Z ->
  forall b : bool,
  Identity.hex_digit (if Nat.ltb 57 (nat_of_ascii (hexchar n)) && b
                      then ascii_of_nat (nat_of_ascii (hexchar n) - 32) else hexchar n)
    = Some n /\
  isHexCharacter (if Nat.ltb 57 (nat_of_ascii (hexchar n)) && b
                  then ascii_of_nat (nat_of_ascii (hexchar n) - 32) else hexchar n) = true.
Proof.
  intros Hn b. destruct (small_nat_cases n Hn) as (k & Hk & ->).
  do 16 (destruct k as [|k]; [destruct b; split; reflexivity|]). lia.
Qed.

Lemma byte_split (v : Z) : (0 <= v < 256)%Z ->
  (0 <= Z.shiftr v 4 < 16)%Z /\ (0 <= Z.land v 15 < 16)%Z /\
  (Z.shiftr v 4 * 16 + Z.land v 15 = v)%Z.
Proof.
  intros Hv.
  rewrite Z.shiftr_div_pow2 by lia.
  change 15%Z with (Z.ones 4). rewrite Z.land_ones by lia.
  change (2 ^ 4)%Z with 16%Z.
  split_and!; [apply Z.div_pos; lia | apply Z.div_lt_upper_bound; lia
              | apply Z.mod_pos_bound; lia | apply Z.mod_pos_bound; lia | ].
  pose proof (Z.div_mod v 16 ltac:(lia)). lia.
Qed.

Lemma decode_checksum (h : Z) (a : list Z) :
  Forall (fun v => 0 <= v < 256)%Z a ->
  forall i, decode_pairs (checksum_from h i (hex_encode a)) = a.
Proof.
  induction 1 as [|v a Hv Ha IH]; intros i; [reflexivity|].
  destruct (byte_split v Hv) as (Hhi & Hlo & Hsum).
  cbn [hex_encode checksum_from decode_pairs].
  rewrite (proj1 (hex_digit_hexchar _ Hhi _)), (proj1 (hex_digit_hexchar _ Hlo _)).
  rewrite IH, Hsum. reflexivity.
Qed.

Lemma checksum_hex (h : Z) (a : list Z) :
  Forall (fun v => 0 <= v < 256)%Z a ->
  forall i, forallb isHexCharacter (list_ascii_of_string (checksum_from h i (hex_encode a))) = true /\
            String.length (checksum_from h i (hex_encode a)) = (2 * length a)%nat.
Proof.
  induction 1 as [|v a Hv Ha IH]; intros i; [split; reflexivity|].
  destruct (byte_split v Hv) as (Hhi & Hlo & _).
  cbn [hex_encode checksum_from list_ascii_of_string forallb String.length length].
  rewrite (proj2 (hex_digit_hexchar _ Hhi _)), (proj2 (hex_digit_hexchar _ Hlo _)).
  destruct (IH (S (S i))) as [IH1 IH2]. rewrite IH1, IH2. split; [reflexivity|lia].
Qed.

Lemma substring_all (s : string) : substring 0 (String.length s) s = s.
Proof. induction s as [|c s IH]; [reflexivity|]. simpl. rewrite IH. reflexivity. Qed.

Lemma drop2_cons (a b : ascii) (s : string) : drop2 (String a (String b s)) = s.
Proof.
  unfold drop2. cbn [String.length substring].
  replace (S (S (String.length s)) - 2) with (String.length s) by lia.
  apply substring_all.
Qed.

Lemma hex_digit_range (c : ascii) (x : Z) :
  Identity.hex_digit c = Some x -> (0 <= x < 16)%Z.
Proof.
  unfold Identity.hex_digit; cbv zeta.
  repeat match goal with |- context [(?a <=? ?b)%Z] => destruct (Z.leb_spec a b) end;
    cbn [andb]; intros Hx; try discriminate; injection Hx as <-; lia.
Qed.

Lemma decode_pairs_range (s : string) : Forall (fun v => 0 <= v < 256)%Z (decode_pairs s).
Proof.
  revert s. fix IH 1. intros [|a [|b rest]]; [constructor|constructor|].
  cbn [decode_pairs].
  destruct (Identity.hex_digit a) as [x|] eqn:Ha; [|constructor].
  destruct (Identity.hex_digit b) as [y|] eqn:Hb; [|constructor].
  apply hex_digit_range in Ha, Hb. constructor; [lia|apply IH].
Qed.

Lemma BytesToAddress_shape (b : list Z) :
  Forall (fun v => 0 <= v < 256)%Z b ->
  length (BytesToAddress b) = 20%nat /\ Forall (fun v => 0 <= v < 256)%Z (BytesToAddress b).
Proof.
  intros Hb. unfold BytesToAddress.
  destruct (Nat.ltb 20 (length b)) eqn:E; [apply Nat.ltb_lt in E|apply Nat.ltb_ge in E].
  - rewrite length_skipn. split.
    + rewrite List.length_app, repeat_length, length_skipn. lia.
    + apply Forall_app; split; [apply Forall_forall; intros x Hx; apply list_elem_of_In, repeat_spec in Hx; lia|].
      rewrite <- (firstn_skipn (length b - 20) b) in Hb.
      apply Forall_app in Hb. exact (proj2 Hb).
  - split; [rewrite List.length_app, repeat_length; lia|].
    apply Forall_app; split; [apply Forall_forall; intros x Hx; apply list_elem_of_In, repeat_spec in Hx; lia|exact Hb].
Qed.

Lemma HexToAddress_shape (s : string) :
  length (HexToAddress s) = 20%nat /\ Forall (fun v => 0 <= v < 256)%Z (HexToAddress s).
Proof. apply BytesToAddress_shape, decode_pairs_range. Qed.

(** [Address.Hex] is a hex address that [HexToAddress] reads back. *)
Lemma Hex_roundtrip (keccak256 : string -> Z) (a : Address) :
  length a = 20%nat -> Forall (fun v => 0 <= v < 256)%Z a ->
  IsHexAddress (Hex keccak256 a) = true /\ HexToAddress (Hex keccak256 a) = a.
Proof.
  intros Hl Hr. unfold Hex.
  set (body := checksum_from (keccak256 (hex_encode a)) 0 (hex_encode a)).
  destruct (checksum_hex (keccak256 (hex_encode a)) a Hr 0) as [Hx Hlen].
  fold body in Hx, Hlen. rewrite Hl in Hlen.
  change ("0x" ++ body) with (String "0" (String "x" body)).
  assert (Hp : has0xPrefix (String "0" (String "x" body)) = true) by reflexivity.
  unfold IsHexAddress, HexToAddress, FromHex, isHex.
  rewrite !Hp, !drop2_cons, Hlen, Hx.
  split; [reflexivity|]. change (Nat.odd (2 * 20)) with false. cbn beta iota zeta.
  unfold body. rewrite decode_checksum by exact Hr.
  unfold BytesToAddress. rewrite Hl. change (Nat.ltb 20 20) with false. cbn beta iota. rewrite Hl. reflexivity.
Qed.

End AddrTheorems.

(* ------------------------------------------------------------------ *)
(** ** The [/requestTokens] handler *)

Section ServerTheorems.
Import Operational.
Import Server.
Import Addr.

Variable keccak256 : string -> Z.
Variable DecString : Decimal -> string.

(** X1. a request whose address field is missing or empty is refused with
    400 and [ErrInvalidRequestFormat]; one whose trimmed address is not a
    hex address with 400 and [ErrInvalidAddressFormat]; in both cases, and
    only in them, the handler makes no client call at all. *)
Theorem requestTokens_input_rejection (cfg : Config) (cl : Clearnode) (bound : option string) :
  let '(calls, (status, b)) := requestTokens keccak256 DecString cfg cl bound in
  ((status, b) = (400%Z, BError ErrInvalidRequestFormat) <-> bound = None \/ bound = Some "") /\
  ((status, b) = (400%Z, BError ErrInvalidAddressFormat) <->
     exists raw, bound = Some raw /\ raw <> "" /\ IsHexAddress (TrimSpace raw) = false) /\
  (calls = [] <-> status = 400%Z).
Proof.
  unfold requestTokens.
  destruct bound as [raw|].
  2:{ split_and!; [split; [auto|reflexivity] | split; [discriminate|intros (raw & ? & _); discriminate]
                 | split; reflexivity]. }
  destruct (String.eqb raw "") eqn:E.
  { apply String.eqb_eq in E as ->.
    split_and!; [split; [auto|reflexivity] | split; [discriminate|intros (raw & [=<-] & ? & _); congruence]
                | split; reflexivity]. }
  apply String.eqb_neq in E.
  destruct (IsHexAddress (TrimSpace raw)) eqn:Hx; cbn [negb].
  2:{ split_and!; [split; [discriminate|intros [?|?]; congruence] | split; [intros _; eauto|reflexivity]
                  | split; reflexivity]. }
  assert (Hno : ~ (exists raw', Some raw = Some raw' /\ raw' <> "" /\ IsHexAddress (TrimSpace raw') = false)).
  { intros (raw' & [=<-] & _ & H'). congruence. }
  assert (Hno' : ~ (Some raw = None \/ Some raw = Some "")) by (intros [?|?]; congruence).
  destruct (ensureConnected cl); [|split_and!; [split; [discriminate|tauto] | split; [discriminate|tauto]
                                              | split; discriminate]].
  destruct (ensureOperational cl); [|split_and!; [split; [discriminate|tauto] | split; [discriminate|tauto]
                                                | split; discriminate]].
  destruct (transfer cl _ _ _) as [r|e]; [|split_and!; [split; [discriminate|tauto] | split; [discriminate|tauto]
                                                      | split; discriminate]].
  destruct (Transactions r) as [|tx txs];
  (split_and!; [split; [discriminate|tauto] | split; [discriminate|tauto] | split; discriminate]).
Qed.

(** X2. [Transfer] is called at most once, as the last of the client calls,
    only after [EnsureConnected] and [EnsureOperational] both succeeded,
    and always with the configured token symbol and tip amount.  The
    status is 503 exactly when one of the two checks failed, 500 exactly
    when the transfer was made and failed, and 200 exactly when it was made
    and succeeded. *)
Theorem requestTokens_transfer_guarded (cfg : Config) (cl : Clearnode) (bound : option string) :
  let '(calls, (status, _)) := requestTokens keccak256 DecString cfg cl bound in
  (calls = [] \/ calls = [CallEnsureConnected] \/
   calls = [CallEnsureConnected; CallEnsureOperational] \/
   exists d, calls = handler_calls cfg d /\ ensureConnected cl = Ok tt /\ ensureOperational cl = Ok tt) /\
  (status = 503%Z <-> calls = [CallEnsureConnected] \/
                      calls = [CallEnsureConnected; CallEnsureOperational]) /\
  (status = 500%Z <-> exists d e, calls = handler_calls cfg d /\
        transfer cl d (TokenSymbol cfg) (StandardTipAmountDecimal cfg) = Err e) /\
  (status = 200%Z <-> exists d r, calls = handler_calls cfg d /\
        transfer cl d (TokenSymbol cfg) (StandardTipAmountDecimal cfg) = Ok r).
Proof.
  unfold requestTokens.
  destruct bound as [raw|].
  2:{ split_and!; [auto | split; [discriminate|intros [?|?]; discriminate]
                 | split; [discriminate|intros (? & ? & ? & _); discriminate]
                 | split; [discriminate|intros (? & ? & ? & _); discriminate]]. }
  destruct (String.eqb raw "").
  { split_and!; [auto | split; [discriminate|intros [?|?]; discriminate]
                | split; [discriminate|intros (? & ? & ? & _); discriminate]
                | split; [discriminate|intros (? & ? & ? & _); discriminate]]. }
  destruct (negb (IsHexAddress (TrimSpace raw))).
  { split_and!; [auto | split; [discriminate|intros [?|?]; discriminate]
                | split; [discriminate|intros (? & ? & ? & _); discriminate]
                | split; [discriminate|intros (? & ? & ? & _); discriminate]]. }
  set (d := Hex keccak256 (HexToAddress (TrimSpace raw))).
  destruct (ensureConnected cl) as [u1|e1] eqn:Hc.
  2:{ split_and!; [auto | split; [auto|reflexivity]
                  | split; [discriminate|intros (? & ? & ? & _); discriminate]
                  | split; [discriminate|intros (? & ? & ? & _); discriminate]]. }
  destruct (ensureOperational cl) as [u2|e2] eqn:Ho.
  2:{ split_and!; [auto | split; [auto|reflexivity]
                  | split; [discriminate|intros (? & ? & ? & _); discriminate]
                  | split; [discriminate|intros (? & ? & ? & _); discriminate]]. }
  destruct u1, u2.
  destruct (transfer cl d (TokenSymbol cfg) (StandardTipAmountDecimal cfg)) as [r|e] eqn:Ht.
  - destruct (Transactions r) as [|tx txs];
    (split_and!; [right; right; right; exists d; auto
                 | split; [discriminate|intros [?|?]; discriminate]
                 | split; [discriminate|intros (d' & e & Hd & He); unfold handler_calls in Hd;
                                        injection Hd as <-; congruence]
                 | split; [intros _; exists d, r; auto|reflexivity]]).
  - split_and!; [right; right; right; exists d; auto
                | split; [discriminate|intros [?|?]; discriminate]
                | split; [intros _; exists d, e; auto|reflexivity]
                | split; [discriminate|intros (d' & r & Hd & Hr); unfold handler_calls in Hd;
                                       injection Hd as <-; congruence]].
Qed.

End ServerTheorems.

Section ServerSuccess.
Import Operational.
Import Server.
Import Addr.

Variable keccak256 : string -> Z.
Variable DecString : Decimal -> string.

Lemma TrimSpace_empty : TrimSpace "" = "".
Proof. reflexivity. Qed.

(** X3. a 200 response reports as its destination exactly the address the
    tokens were transferred to; that address is a valid hex address and
    denotes the same 20 bytes as the trimmed user input.  Transaction id,
    amount and asset come from the first transaction of the transfer
    result, or, when it has none, are empty, the configured tip and the
    configured token symbol. *)
Theorem requestTokens_success (cfg : Config) (cl : Clearnode) (raw : string)
  (calls : list call) (b : body)
  (H : requestTokens keccak256 DecString cfg cl (Some raw) = (calls, (200%Z, b))) :
  exists d r resp,
    calls = handler_calls cfg d /\
    transfer cl d (TokenSymbol cfg) (StandardTipAmountDecimal cfg) = Ok r /\
    b = BFaucet resp /\ Success resp = true /\
    FDestination resp = d /\
    IsHexAddress d = true /\ HexToAddress d = HexToAddress (TrimSpace raw) /\
    (Transactions r = [] ->
       TxID resp = "" /\ FAmount resp = DecString (StandardTipAmountDecimal cfg) /\
       FAsset resp = TokenSymbol cfg) /\
    (forall tx rest, Transactions r = tx :: rest ->
       TxID resp = pretty (Id tx) /\ FAmount resp = DecString (TxAmount tx) /\
       FAsset resp = TxAsset tx).
Proof.
  unfold requestTokens in H.
  destruct (String.eqb raw ""); [discriminate|].
  destruct (negb (IsHexAddress (TrimSpace raw))); [discriminate|].
  set (d := Hex keccak256 (HexToAddress (TrimSpace raw))) in H.
  destruct (HexToAddress_shape (TrimSpace raw)) as [Hl Hr].
  destruct (Hex_roundtrip keccak256 _ Hl Hr) as [Hd1 Hd2].
  destruct (ensureConnected cl); [|discriminate].
  destruct (ensureOperational cl); [|discriminate].
  destruct (transfer cl d (TokenSymbol cfg) (StandardTipAmountDecimal cfg)) as [r|e] eqn:Ht;
    [|discriminate].
  destruct (Transactions r) as [|tx txs] eqn:Htx; injection H as <- <-;
    eexists d, r, _;
    (split_and!; [reflexivity|exact Ht|reflexivity|reflexivity|reflexivity|exact Hd1|exact Hd2| |]).
  - intros _. split_and!; reflexivity.
  - intros ? ? H'. congruence.
  - intros H'. congruence.
  - intros ? ? H'. rewrite Htx in H'. injection H' as -> ->. split_and!; reflexivity.
Qed.

Lemma has0xPrefix_hex (t : string) :
  forallb isHexCharacter (list_ascii_of_string t) = true -> has0xPrefix t = false.
Proof.
  destruct t as [|a [|b r]]; [reflexivity|reflexivity|].
  cbn [list_ascii_of_string forallb]. intros Hall.
  apply andb_prop in Hall as [_ Hall]. apply andb_prop in Hall as [Hb _].
  unfold has0xPrefix.
  destruct (Ascii.eqb a "0"); [|reflexivity].
  destruct (Ascii.eqb b "x") eqn:Ex; [apply Ascii.eqb_eq in Ex; subst; discriminate|].
  destruct (Ascii.eqb b "X") eqn:EX; [apply Ascii.eqb_eq in EX; subst; discriminate|].
  reflexivity.
Qed.

(** The accepted forms of a trimmed address: an optional [0x]/[0X] prefix
    and 40 hex digits. *)
Lemma prefixed_hex_address (p t : string) :
  p = "" \/ p = "0x" \/ p = "0X" ->
  String.length t = 40%nat -> forallb isHexCharacter (list_ascii_of_string t) = true ->
  IsHexAddress (p ++ t) = true /\ HexToAddress (p ++ t) = BytesToAddress (decode_pairs t).
Proof.
  intros Hp Hl Hh.
  assert (Hs : (if has0xPrefix (p ++ t) then drop2 (p ++ t) else p ++ t) = t).
  { destruct Hp as [ -> | [ -> | -> ] ]; cbn [String.append];
      [rewrite has0xPrefix_hex by exact Hh; reflexivity | apply drop2_cons | apply drop2_cons]. }
  unfold IsHexAddress, HexToAddress, FromHex, isHex.
  rewrite Hs, Hl, Hh. change (Nat.odd 40) with false. split; reflexivity.
Qed.

Lemma decode_pairs_digits (s : string) :
  decode_pairs s = decode_digits (map Identity.hex_digit (list_ascii_of_string s)).
Proof.
  revert s. fix IH 1. intros [|a [|b rest]].
  - reflexivity.
  - cbn. destruct (Identity.hex_digit a); reflexivity.
  - cbn [decode_pairs list_ascii_of_string map].
    destruct (Identity.hex_digit a), (Identity.hex_digit b); try reflexivity.
    cbn [decode_digits]. rewrite IH. reflexivity.
Qed.

(** X4. the handler does not depend on how the user wrote the address:
    two inputs that trim to 40 hex digits, each with or without a [0x] or
    [0X] prefix, and whose digits have the same values (they differ at most
    in the case of the letters) get the same client calls, status and
    body. *)
Theorem requestTokens_address_normalised (cfg : Config) (cl : Clearnode)
  (raw1 raw2 p1 p2 t1 t2 : string)
  (H1 : TrimSpace raw1 = p1 ++ t1) (H2 : TrimSpace raw2 = p2 ++ t2)
  (Hp1 : p1 = "" \/ p1 = "0x" \/ p1 = "0X") (Hp2 : p2 = "" \/ p2 = "0x" \/ p2 = "0X")
  (Hl1 : String.length t1 = 40%nat) (Hl2 : String.length t2 = 40%nat)
  (Hh1 : forallb isHexCharacter (list_ascii_of_string t1) = true)
  (Hh2 : forallb isHexCharacter (list_ascii_of_string t2) = true)
  (Hsame : map Identity.hex_digit (list_ascii_of_string t1) =
           map Identity.hex_digit (list_ascii_of_string t2)) :
  requestTokens keccak256 DecString cfg cl (Some raw1) =
  requestTokens keccak256 DecString cfg cl (Some raw2).
Proof.
  assert (Hne : forall raw p t, TrimSpace raw = p ++ t -> String.length t = 40%nat ->
                String.eqb raw "" = false).
  { intros raw p t Ht Hl. apply String.eqb_neq. intros ->.
    rewrite TrimSpace_empty in Ht.
    assert (Hge : forall q, (String.length t <= String.length (q ++ t))%nat)
      by (induction q as [|c q IHq]; [apply le_n|];
          change (String.length (String c q ++ t)) with (S (String.length (q ++ t))); lia).
    specialize (Hge p). rewrite <- Ht in Hge. change (String.length "") with 0%nat in Hge. lia. }
  destruct (prefixed_hex_address p1 t1 Hp1 Hl1 Hh1) as [A1 B1].
  destruct (prefixed_hex_address p2 t2 Hp2 Hl2 Hh2) as [A2 B2].
  unfold requestTokens.
  rewrite (Hne raw1 p1 t1 H1 Hl1), (Hne raw2 p2 t2 H2 Hl2), H1, H2, A1, A2, B1, B2.
  rewrite !decode_pairs_digits, Hsame. reflexivity.
Qed.

End ServerSuccess.

Lemma requestTokens_success_witness :
  exists calls b,
    Server.requestTokens (fun _ => 0%Z) (fun _ => "1")
      (Server.mkConfig "usdc" (Operational.mkDecimal 1 0))
      (Server.mkClearnode (Ok tt) (Ok tt)
         (fun _ _ _ => Ok (Server.mkTransferResponse [Server.mkTx 7 (Operational.mkDecimal 1 0) "usdc"])))
      (Some " 0xABCDEF0123456789abcdef0123456789ABCDEF01 ") = (calls, (200%Z, b)) /\
    exists d resp,
      calls = Server.handler_calls (Server.mkConfig "usdc" (Operational.mkDecimal 1 0)) d /\
      b = Server.BFaucet resp /\ Server.FDestination resp = d /\ Addr.IsHexAddress d = true.
Proof.
  set (res := Server.requestTokens (fun _ => 0%Z) (fun _ => "1")
      (Server.mkConfig "usdc" (Operational.mkDecimal 1 0))
      (Server.mkClearnode (Ok tt) (Ok tt)
         (fun _ _ _ => Ok (Server.mkTransferResponse [Server.mkTx 7 (Operational.mkDecimal 1 0) "usdc"])))
      (Some " 0xABCDEF0123456789abcdef0123456789ABCDEF01 ")).
  exists (fst res), (snd (snd res)).
  assert (H : res = (fst res, (200%Z, snd (snd res)))) by (vm_compute; reflexivity).
  split; [exact H|].
  destruct (requestTokens_success _ _ _ _ _ _ _ H)
    as (d & r & resp & Hc & _ & Hb & _ & Hd & Hx & _).
  exists d, resp. split_and!; assumption.
Defined.

Lemma requestTokens_address_normalised_witness :
  Server.requestTokens (fun _ => 0%Z) (fun _ => "1")
    (Server.mkConfig "usdc" (Operational.mkDecimal 1 0))
    (Server.mkClearnode (Ok tt) (Ok tt) (fun _ _ _ => Ok (Server.mkTransferResponse [])))
    (Some " 0xABCDEF0123456789abcdef0123456789ABCDEF01")
  = Server.requestTokens (fun _ => 0%Z) (fun _ => "1")
    (Server.mkConfig "usdc" (Operational.mkDecimal 1 0))
    (Server.mkClearnode (Ok tt) (Ok tt) (fun _ _ _ => Ok (Server.mkTransferResponse [])))
    (Some ("abcdef0123456789ABCDEF0123456789abcdef01" ++ String (ascii_of_nat 9) "")).
Proof.
  apply (requestTokens_address_normalised _ _ _ _ _ _ "0x" ""
           "ABCDEF0123456789abcdef0123456789ABCDEF01" "abcdef0123456789ABCDEF0123456789abcdef01");
    first [vm_compute; reflexivity | right; left; reflexivity | left; reflexivity].
Defined.

(* ------------------------------------------------------------------ *)
(** ** Routing and CORS *)

Section CorsTheorems.
Import Server.

(** X5. An [OPTIONS] request, whatever its path, is answered 204 with
    the three CORS headers and reaches no handler.  Every request other
    than the two trailing-slash variants of the routes gets the CORS
    headers; those two are redirected by gin before the middleware runs,
    without them.  The token handler runs exactly for [POST /requestTokens]. *)
Theorem serve_cors (method path : string) :
  (method = "OPTIONS" -> serve method path = (cors_headers, inl 204%Z)) /\
  (~ ((method = "POST" /\ path = "/requestTokens/") \/ (method = "GET" /\ path = "/info/")) ->
   fst (serve method path) = cors_headers) /\
  serve "POST" "/requestTokens/" = ([("Location", "/requestTokens")], inl 307%Z) /\
  serve "GET" "/info/" = ([("Location", "/info")], inl 301%Z) /\
  (snd (serve method path) = inr HRequestTokens <-> method = "POST" /\ path = "/requestTokens").
Proof.
  assert (Hnr : ~ ((method = "POST" /\ path = "/requestTokens/") \/ (method = "GET" /\ path = "/info/")) ->
                redirect_target method path = None).
  { intros Hn. unfold redirect_target.
    destruct (String.eqb method "POST") eqn:E1, (String.eqb path "/requestTokens/") eqn:E2;
      cbn [andb];
      [apply String.eqb_eq in E1, E2; exfalso; apply Hn; left; auto| | |];
    (destruct (String.eqb method "GET") eqn:E3, (String.eqb path "/info/") eqn:E4; cbn [andb];
      [apply String.eqb_eq in E3, E4; exfalso; apply Hn; right; auto|reflexivity|reflexivity|reflexivity]). }
  split_and!.
  - intros ->. unfold serve.
    rewrite Hnr by (intros [[H _]|[H _]]; discriminate). reflexivity.
  - intros Hn. unfold serve. rewrite (Hnr Hn). reflexivity.
  - reflexivity.
  - reflexivity.
  - unfold serve, redirect_target.
    destruct (String.eqb method "POST") eqn:Ep, (String.eqb path "/requestTokens/") eqn:Ers;
      cbn [andb].
    + apply String.eqb_eq in Ep, Ers. subst. split; [discriminate|intros [_ H]; discriminate].
    + destruct (String.eqb method "GET" && String.eqb path "/info/") eqn:Eg.
      { apply andb_prop in Eg as [Eg _]. apply String.eqb_eq in Ep, Eg. congruence. }
      apply String.eqb_eq in Ep. subst method.
      unfold corsMiddleware, route. cbn [snd String.eqb andb].
      destruct (String.eqb path "/requestTokens") eqn:Er; cbn [andb].
      * apply String.eqb_eq in Er. split; [auto|reflexivity].
      * apply String.eqb_neq in Er. split; [|intros [_ ?]; contradiction].
        destruct (String.eqb "POST" "GET" && String.eqb path "/info"); discriminate.
    + apply String.eqb_neq in Ep.
      destruct (String.eqb method "GET" && String.eqb path "/info/").
      { split; [discriminate|intros [? _]; contradiction]. }
      unfold corsMiddleware, route. rewrite (proj2 (String.eqb_neq method "POST") Ep). cbn [andb].
      split; [|intros [? _]; contradiction].
      destruct (String.eqb method "OPTIONS");
        [discriminate|destruct (String.eqb method "GET" && String.eqb path "/info"); discriminate].
    + apply String.eqb_neq in Ep.
      destruct (String.eqb method "GET" && String.eqb path "/info/").
      { split; [discriminate|intros [? _]; contradiction]. }
      unfold corsMiddleware, route. rewrite (proj2 (String.eqb_neq method "POST") Ep). cbn [andb].
      split; [|intros [? _]; contradiction].
      destruct (String.eqb method "OPTIONS");
        [discriminate|destruct (String.eqb method "GET" && String.eqb path "/info"); discriminate].
Qed.

End CorsTheorems.

(* ------------------------------------------------------------------ *)
(** ** The recovery byte of [SignChallenge] *)

Section Eip712Theorems.
Import Eip712.

(** X6. on a 65-byte signature whose recovery byte [v] is a byte,
    [SignChallenge]'s adjustment keeps the length and the first 64 bytes,
    sets the recovery byte to [v + 27] when [v < 27] and leaves it alone
    otherwise (so [crypto.Sign]'s 0/1 become 27/28), and applying it again
    changes nothing. *)
Theorem normalizeV_recovery (signature : list Z) (v : Z)
  (Hlen : length signature = 65%nat) (Hv : signature !! 64%nat = Some v)
  (Hbyte : (0 <= v < 256)%Z) :
  exists signature',
    normalizeV signature = Some signature' /\
    length signature' = 65%nat /\
    take 64 signature' = take 64 signature /\
    signature' !! 64%nat = Some (if Z.ltb v 27 then (v + 27)%Z else v) /\
    normalizeV signature' = Some signature'.
Proof.
  unfold normalizeV. rewrite Hv.
  destruct (Z.ltb v 27) eqn:Hlt; eexists; (split; [reflexivity|]).
  - apply Z.ltb_lt in Hlt.
    assert (Hm : ((v + 27) mod 256 = v + 27)%Z) by (apply Z.mod_small; lia).
    rewrite Hm.
    assert (H64 : <[64%nat := (v + 27)%Z]> signature !! 64%nat = Some (v + 27)%Z).
    { apply list_lookup_insert_eq. lia. }
    split_and!.
    + rewrite length_insert. exact Hlen.
    + apply take_insert_ge. lia.
    + exact H64.
    + rewrite H64. replace (Z.ltb (v + 27) 27) with false by (symmetry; apply Z.ltb_ge; lia).
      reflexivity.
  - split_and!; [exact Hlen|reflexivity|exact Hv|rewrite Hv, Hlt; reflexivity].
Qed.

End Eip712Theorems.

Lemma normalizeV_recovery_witness :
  exists signature', Eip712.normalizeV (List.repeat 5%Z 64 ++ [1%Z]) = Some signature' /\
                     signature' !! 64%nat = Some 28%Z.
Proof.
  destruct (normalizeV_recovery (List.repeat 5%Z 64 ++ [1%Z]) 1 eq_refl eq_refl ltac:(lia))
    as (s' & Hs & _ & _ & H64 & _).
  exists s'. split; [exact Hs|exact H64].
Defined.

(* ------------------------------------------------------------------ *)
(** ** Parsing the node's replies *)

Section ParseTheorems.

(** X7. [parseAssets] fails exactly when [assets] is missing or not a
    list; otherwise it keeps one asset per object entry, in order, and
    for a non-empty symbol, some parsed asset carries that symbol exactly
    when some object entry has that string under [symbol] (entries with a
    missing or non-string symbol never match a real symbol). *)
Theorem parseAssets_symbols (data : list (string * jvalue)) (sym : string)
  (Hsym : sym <> "") :
  match as_list (map_get data "assets") with
  | None => parseAssets data = Err EInvalidAssets
  | Some l =>
      exists assets, parseAssets data = Ok assets /\
        length assets = length (omap as_map l) /\
        ((exists a, In a assets /\ Symbol a = sym) <->
         (exists m, In (JObj m) l /\ map_get m "symbol" = Some (JStr sym)))
  end.
Proof.
  unfold parseAssets.
  destruct (as_list (map_get data "assets")) as [l|]; [|reflexivity].
  eexists; split; [reflexivity|].
  induction l as [|v l IH]; cbn [parse_asset_list list_omap length In].
  { split; [reflexivity|]. split; intros (? & [] & _). }
  destruct IH as [IHlen IHsym].
  destruct v as [| | | | |m0|];
    cbn [as_map parse_asset_list length In];
    try (split; [exact IHlen|]; rewrite IHsym;
         split; [intros (m & Hm & Hs); exists m; split; [right; exact Hm|exact Hs]
                |intros (m & [Hm|Hm] & Hs); [discriminate|exists m; split; [exact Hm|exact Hs]]]).
  split; [rewrite IHlen; reflexivity|].
  split.
  - intros (a & [<-|Ha] & Hs).
    + exists m0. split; [left; reflexivity|].
      unfold asset_of_map in Hs. cbn [Symbol] in Hs.
      destruct (map_get m0 "symbol") as [[]|]; cbn in Hs; subst; try contradiction; reflexivity.
    + destruct (proj1 IHsym (ex_intro _ a (conj Ha Hs))) as (m & Hm & Hms).
      exists m. split; [right; exact Hm|exact Hms].
  - intros (m & [Hm|Hm] & Hs).
    + injection Hm as ->. exists (asset_of_map m). split; [left; reflexivity|].
      unfold asset_of_map. rewrite Hs. reflexivity.
    + destruct (proj2 IHsym (ex_intro _ m (conj Hm Hs))) as (a & Ha & Has).
      exists a. split; [right; exact Ha|exact Has].
Qed.

(** X8. when several entries of [ledger_balances] are usable for the
    requested symbol (an object whose [asset] is that symbol and whose
    [amount] is a string), [parseTokenBalance] returns the first of them,
    whatever comes after it. *)
Theorem parseTokenBalance_first_usable (data : list (string * jvalue)) (tokenSymbol : string)
  (pre post : list jvalue) (m : list (string * jvalue)) (amount : string)
  (Hl : as_list (map_get data "ledger_balances") = Some (List.app pre (JObj m :: post)))
  (Hpre : Forall (no_usable_entry tokenSymbol) pre)
  (Hasset : as_string (map_get m "asset") = Some tokenSymbol)
  (Hamount : as_string (map_get m "amount") = Some amount) :
  parseTokenBalance data tokenSymbol = Ok (mkBalance tokenSymbol amount).
Proof.
  unfold parseTokenBalance. rewrite Hl. clear Hl.
  induction Hpre as [|v pre Hv Hpre IH]; cbn [List.app find_balance as_map].
  - rewrite Hasset, String.eqb_refl, Hamount. reflexivity.
  - rewrite <- IH.
    destruct (as_map v) as [mv|] eqn:Hmv; [|reflexivity].
    destruct (as_string (map_get mv "asset")) as [a|] eqn:Ha; [|reflexivity].
    destruct (String.eqb a tokenSymbol) eqn:Ea; [|reflexivity].
    apply String.eqb_eq in Ea; subst a.
    rewrite (Hv mv Hmv Ha). reflexivity.
Qed.

End ParseTheorems.

Lemma parseAssets_symbols_witness :
  exists assets,
    parseAssets [("assets", JArr [JObj [("symbol", JStr "usdc")]; JNum 3; JObj []])] = Ok assets /\
    length assets = 2%nat.
Proof.
  pose proof (parseAssets_symbols
                [("assets", JArr [JObj [("symbol", JStr "usdc")]; JNum 3; JObj []])] "usdc"
                ltac:(discriminate)) as H.
  cbn [map_get as_list String.eqb] in H.
  destruct H as (assets & Hp & Hl & _).
  exists assets. split; [exact Hp|exact Hl].
Defined.

Lemma parseTokenBalance_first_usable_witness :
  parseTokenBalance
    [("ledger_balances", JArr [JObj [("asset", JStr "usdc")];
                               JObj [("asset", JStr "usdc"); ("amount", JStr "7")];
                               JObj [("asset", JStr "usdc"); ("amount", JStr "9")]])] "usdc"
  = Ok (mkBalance "usdc" "7").
Proof.
  apply (parseTokenBalance_first_usable _ _ [JObj [("asset", JStr "usdc")]]
           [JObj [("asset", JStr "usdc"); ("amount", JStr "9")]]
           [("asset", JStr "usdc"); ("amount", JStr "7")] "7").
  - reflexivity.
  - constructor; [|constructor].
    intros m Hm _. injection Hm as <-. reflexivity.
  - reflexivity.
  - reflexivity.
Defined.

(* ------------------------------------------------------------------ *)
(** ** Responses reach the request they answer *)

Section OwnResponse.
Import Correlator.

Variable rid : Z.
Variable ch : nat.

(** The one-slot buffer of the call, and what the call returned, only
    ever hold a response whose id is the call's request id. *)
Definition own_inv (s : state) : Prop :=
  (forall r, slots s !! ch = Some (Some r) -> RequestID r = rid) /\
  (forall r, caller s = CDone (Ok r) -> RequestID r = rid).

Lemma own_inv_step (s0 s1 : state) :
  corr_inv rid ch s0 -> own_inv s0 -> step rid ch s0 s1 -> own_inv s1.
Proof.
  intros (Htab & _) (Hslot & Hok) Hst.
  destruct Hst as [s Hc|s Hc|s Hc|s Hc|s r Hc Hr|s Hc|s Hc|s res Hrd|s j Hrd|s Hrd];
    unfold own_inv.
  - unfold register; cbn [slots caller]. split.
    + intros r. rewrite lookup_insert_eq. discriminate.
    + discriminate.
  - cbn [slots caller]. split; [exact Hslot|discriminate].
  - cbn [slots caller]. split; [exact Hslot|discriminate].
  - cbn [slots caller delete_entry]. split; [exact Hslot|discriminate].
  - cbn [slots caller]. split.
    + intros r'. rewrite lookup_insert_eq. discriminate.
    + intros r' Hr'. injection Hr' as <-. exact (Hslot r Hr).
  - cbn [slots caller]. split; [exact Hslot|discriminate].
  - cbn [slots caller delete_entry]. split; [exact Hslot|discriminate].
  - unfold reader_frame.
    destruct (decode_response res) as [resp|]; [|split; assumption].
    unfold set_reader, deliver.
    destruct (table s !! RequestID resp) as [c|] eqn:Ht; [|split; assumption].
    destruct (Htab _ _ Ht) as [Hid ->].
    destruct (slots s !! ch) as [[r0|]|] eqn:Hs0; cbn [slots caller].
    + rewrite <- Hs0 in Hslot. split; assumption.
    + split; [|exact Hok].
      intros r. rewrite lookup_insert_eq. intros [= <-]. exact Hid.
    + rewrite <- Hs0 in Hslot. split; assumption.
  - unfold reader_cleanup, set_reader, delete_entry; cbn [slots caller].
    split; assumption.
  - unfold set_reader; cbn [slots caller]. split; assumption.
Qed.

Lemma own_inv_steps (s s' : state) :
  steps rid ch s s' -> corr_inv rid ch s -> own_inv s -> own_inv s'.
Proof.
  induction 1 as [s|s1 s2 s3 H12 H23 IH]; intros Hc Ho; [exact Ho|].
  apply IH; [exact (corr_inv_step rid ch s1 s2 Hc H12)|exact (own_inv_step s1 s2 Hc Ho H12)].
Qed.

(** X9. whatever the interleaving with the reader loop, a response that
    [sendRequest] returns carries the request id of that call: the reader
    routes each decoded frame only to the channel registered under the
    frame's id. *)
Theorem sendRequest_returns_own_response (s : state) (r : RPCResponse)
  (Hs : steps rid ch init s) (Hc : caller s = CDone (Ok r)) :
  RequestID r = rid.
Proof.
  assert (H0 : own_inv init).
  { unfold own_inv, init; cbn [slots caller]. split; [intros r0; rewrite lookup_empty; discriminate|discriminate]. }
  destruct (own_inv_steps init s Hs (corr_inv_init rid ch) H0) as [_ Hok].
  exact (Hok r Hc).
Qed.

End OwnResponse.

Lemma sendRequest_returns_own_response_witness :
  { s | Correlator.steps 1 0 Correlator.init s /\
        Correlator.caller s = Correlator.CDone (Ok resp1) /\ RequestID resp1 = 1%Z }.
Proof.
  destruct response_run as [s [Hs [Hc _]]].
  exists s. split_and!; [exact Hs|exact Hc|].
  exact (sendRequest_returns_own_response 1 0 s resp1 Hs Hc).
Defined.

(* ------------------------------------------------------------------ *)
(** ** Key cleaning in the single-key [NewClient] *)

Section NewClientTheorems.
Import Identity.

Lemma strip0x_spec (s : string) :
  strip0x s =
  match s with
  | String a (String b rest) =>
      if Ascii.eqb a "0" && Ascii.eqb b "x" && Nat.ltb 2 (String.length s) then rest else s
  | _ => s
  end.
Proof.
  destruct s as [|a [|b rest]]; [reflexivity| |].
  - destruct a as [[] [] [] [] [] [] [] []]; reflexivity.
  - destruct a as [[] [] [] [] [] [] [] []]; try reflexivity.
    destruct b as [[] [] [] [] [] [] [] []]; reflexivity.
Qed.

Lemma hex_value_digits (c : ascii) (s : string) (acc : Z) :
  hex_value (String c s) acc <> None -> hex_digit c <> None.
Proof. cbn [hex_value]. destruct (hex_digit c); [discriminate|auto]. Qed.

Lemma HexToECDSA_shape (k : string) :
  HexToECDSA k <> None -> String.length k = 64%nat /\ hex_value k 0 <> None.
Proof.
  unfold HexToECDSA.
  destruct (Nat.eqb (String.length k) 64) eqn:E; [|tauto].
  apply Nat.eqb_eq in E. destruct (hex_value k 0); [intros _; split; [exact E|discriminate]|tauto].
Qed.

Lemma strip0x_parsable (k : string) : HexToECDSA k <> None -> strip0x k = k.
Proof.
  intros Hk. destruct (HexToECDSA_shape k Hk) as [_ Hv].
  rewrite strip0x_spec.
  destruct k as [|a [|b rest]]; try reflexivity.
  destruct (Ascii.eqb a "0"); [|reflexivity].
  destruct (Ascii.eqb b "x") eqn:Eb; [|reflexivity].
  apply Ascii.eqb_eq in Eb; subst b. exfalso.
  cbn [hex_value] in Hv. destruct (hex_digit a); [|apply Hv; reflexivity].
  apply hex_value_digits in Hv. apply Hv. reflexivity.
Qed.

(** X10. [NewClient] builds the same client from a key written with or
    without a lowercase [0x] prefix; the prefix is matched case-sensitively,
    so the same key behind [0X] is not cleaned and is rejected with the
    parse error. *)
Theorem NewClient_key_prefix (k clearnodeURL : string) (Hk : HexToECDSA k <> None) :
  NewClient ("0x" ++ k) clearnodeURL = NewClient k clearnodeURL /\
  (exists c, NewClient k clearnodeURL = Ok c) /\
  NewClient ("0X" ++ k) clearnodeURL = Err (EWrap "failed to parse private key" EParseKey).
Proof.
  destruct (HexToECDSA_shape k Hk) as [Hl _].
  split_and!.
  - unfold NewClient. rewrite (strip0x_parsable k Hk).
    change ("0x" ++ k) with (String "0" (String "x" k)).
    rewrite strip0x_spec. change (String.length (String "0" (String "x" k))) with (S (S (String.length k))).
    rewrite Hl. reflexivity.
  - unfold NewClient. rewrite (strip0x_parsable k Hk).
    destruct (HexToECDSA k) as [d|]; [eexists; reflexivity|contradiction].
  - unfold NewClient. change ("0X" ++ k) with (String "0" (String "X" k)).
    assert (HX : strip0x (String "0" (String "X" k)) = String "0" (String "X" k)) by reflexivity.
    rewrite HX. unfold HexToECDSA. change (String.length (String "0" (String "X" k))) with (S (S (String.length k))).
    rewrite Hl. reflexivity.
Qed.

End NewClientTheorems.

Lemma NewClient_key_prefix_witness :
  exists c, Identity.NewClient ("0x" ++ "abcdef1234567890abcdef1234567890abcdef1234567890abcdef1234567890") "ws://node" = Ok c.
Proof.
  destruct (NewClient_key_prefix "abcdef1234567890abcdef1234567890abcdef1234567890abcdef1234567890" "ws://node"
              ltac:(vm_compute; discriminate)) as (Heq & (c & Hc) & _).
  exists c. rewrite Heq. exact Hc.
Defined.

(* ------------------------------------------------------------------ *)
(** ** When [Authenticate] succeeds *)

Section AuthenticateTheorems.

(** X11. [Authenticate] succeeds exactly when [auth_request] returned a
    response whose [challenge_message] is a string and [auth_verify] was
    answered by a response whose method is not ["error"] and whose
    [success] is the boolean [true]; a send failure or a timeout of
    [auth_verify] is always an error.  On success the stored token is the
    [jwt_token] of that reply when it is a string, and nothing otherwise. *)
Theorem Authenticate_success (challengeResponse : result RPCResponse) (verify : verify_outcome) :
  ((exists t, Authenticate challengeResponse verify = Ok t) <->
   exists cr m vr,
     challengeResponse = Ok cr /\
     as_string (map_get (Data cr) "challenge_message") = Some m /\
     verify = VResponse vr /\ Method vr <> "error" /\
     map_get (Data vr) "success" = Some (JBool true)) /\
  (forall t, Authenticate challengeResponse verify = Ok t ->
     exists vr, verify = VResponse vr /\ t = as_string (map_get (Data vr) "jwt_token")).
Proof.
  unfold Authenticate.
  destruct challengeResponse as [cr|e].
  2:{ split; [split; [intros (t & Ht); discriminate|intros (cr & _ & _ & [=] & _)]|intros t Ht; discriminate]. }
  destruct (as_string (map_get (Data cr) "challenge_message")) as [m|] eqn:Hm.
  2:{ split; [split; [intros (t & Ht); discriminate|intros (cr' & m & _ & [= <-] & Hm' & _); congruence]
             |intros t Ht; discriminate]. }
  destruct verify as [vr| |].
  2,3: split; [split; [intros (t & Ht); discriminate|intros (_ & _ & vr & _ & _ & [=] & _)]
              |intros t Ht; discriminate].
  destruct (String.eqb (Method vr) "error") eqn:Ee.
  { apply String.eqb_eq in Ee.
    split; [split; [intros (t & Ht); discriminate|intros (_ & _ & vr' & _ & _ & [= <-] & Hne & _); contradiction]
           |intros t Ht; discriminate]. }
  apply String.eqb_neq in Ee.
  destruct (map_get (Data vr) "success") as [[| [] | | | | |]|] eqn:Hs;
    try (split; [split; [intros (t & Ht); discriminate
                        |intros (_ & _ & vr' & _ & _ & [= <-] & _ & Hs'); congruence]
                |intros t Ht; discriminate]).
  split.
  - split; [intros _; exists cr, m, vr; auto|intros _; eexists; reflexivity].
  - intros t [= <-]. exists vr. auto.
Qed.

End AuthenticateTheorems.
